(** * Batch bitmap functions of be/src/exprs/vectorized/bitmap_functions.cpp

    A shallow embedding of [BitmapFunctions] and of the parts of the column
    layer and of [BitmapValue] that its functions go through, followed by the
    properties of the functions.  Row indices and sizes are [nat] (the loops
    count rows in an [int]; a batch is taken to have fewer than 2^31 rows),
    machine integers are [Z], a bitmap is a finite set of [N]. *)

From Stdlib Require Import ZArith Lia Ascii.
From stdpp Require Import base tactics option list sets gmap strings pretty sorting.

Local Open Scope Z_scope.

(** ** Machine integers used by the functions *)

Definition INT32_MAX : Z := 2147483647.
Definition INT_MIN : Z := -2147483648.
Definition UINT64_MAX : N := 18446744073709551615%N.

(** Conversion of a signed 64-bit value to [uint64_t], as C++ does it when an
    [int64_t] is passed where a [uint64_t] is expected. *)
Definition to_uint64 (v : Z) : N := Z.to_N (v mod 2 ^ 64).

(** Conversions to the other integer types the functions store values in:
    [int] and [int64_t] keep the value modulo 2^32 and 2^64 in their signed
    range, [uint32_t] and [size_t] in their unsigned range. *)
Definition to_int32 (v : Z) : Z := (v + 2 ^ 31) mod 2 ^ 32 - 2 ^ 31.
Definition to_uint32 (v : Z) : Z := v mod 2 ^ 32.
Definition to_int64 (v : Z) : Z := (v + 2 ^ 63) mod 2 ^ 64 - 2 ^ 63.
Definition to_size_t (v : Z) : Z := v mod 2 ^ 64.

(** [std::string::c_str] read as a C string, which is how a [const char*]
    parameter takes it: the characters before the first NUL byte. *)
Fixpoint c_str (s : string) : string :=
  match s with
  | EmptyString => EmptyString
  | String a rest => if Ascii.eqb a Ascii.zero then EmptyString else String a (c_str rest)
  end.

(** Whether a text holds a NUL byte. *)
Fixpoint has_nul (s : string) : bool :=
  match s with
  | EmptyString => false
  | String a rest => Ascii.eqb a Ascii.zero || has_nul rest
  end.

(** ** Outcome of a call: a column, or a thrown [std::runtime_error] *)

Inductive Result (A : Type) : Type :=
| Ok (a : A)
| Throw (what : string).
Arguments Ok {A} a.
Arguments Throw {A} what.

Global Instance Result_bind : MBind Result := λ A B k r,
  match r with
  | Ok a => k a
  | Throw w => Throw w
  end.

(** ** Columns *)

(** Modelled from the spec: the column classes, [ColumnViewer],
    [ColumnBuilder] and [ColumnHelper] are declared under column/, outside the
    source files.  Sections 3 and 6 of the specification give a column as a
    batch of rows with an optional null mask, a constant (broadcast) form and
    an entirely-null form, read through a row accessor and built by a writer
    with [append(value | null)] and [finish(is_constant)].

    [DefaultValue] is the value a column stores in the data slot of a null
    row ([append_default]). *)
Class DefaultValue (T : Type) := default_value : T.
Global Instance bitmap_default : DefaultValue (gset N) := (∅ : gset N).
Global Instance string_default : DefaultValue string := EmptyString.
Global Instance Z_default : DefaultValue Z := 0.
Global Instance bool_default : DefaultValue bool := false.

(** Modelled from the spec: the physical shapes of a column, a plain data
    column, a nullable column (each row carries its null flag next to its data
    slot), a constant column repeating one value, and the constant null
    column, which is the entirely-null column [only_null] answers for. *)
Inductive Column (T : Type) : Type :=
| DataColumn (data : list T)
| NullableColumn (cells : list (bool * T))
| ConstColumn (v : T) (n : nat)
| ConstNullColumn (n : nat).
Arguments DataColumn {T} data.
Arguments NullableColumn {T} cells.
Arguments ConstColumn {T} v n.
Arguments ConstNullColumn {T} n.

Section Columns.
Context {T : Type} `{!DefaultValue T}.

Global Instance column_size : Size (Column T) := λ c,
  match c with
  | DataColumn d => length d
  | NullableColumn cs => length cs
  | ConstColumn _ n => n
  | ConstNullColumn n => n
  end.

Definition is_constant (c : Column T) : bool :=
  match c with
  | ConstColumn _ _ | ConstNullColumn _ => true
  | _ => false
  end.

Definition only_null (c : Column T) : bool :=
  match c with
  | ConstNullColumn _ => true
  | _ => false
  end.

(** The null column of a nullable column. *)
Definition null_column (c : Column T) : list bool :=
  match c with
  | NullableColumn cs => fst <$> cs
  | _ => []
  end.

Definition has_null (c : Column T) : bool :=
  match c with
  | DataColumn _ => false
  | NullableColumn cs => existsb fst cs
  | ConstColumn _ _ => false
  | ConstNullColumn _ => true
  end.

(** Modelled from the spec: [ColumnViewer::is_null] and
    [ColumnViewer::value], the row accessor.  A constant column answers with
    its single value at every index.  An index past the end of a data or
    nullable column is an out-of-bounds read in the source; here it answers
    with the default. *)
Definition viewer_is_null (c : Column T) (row : nat) : bool :=
  match c with
  | DataColumn _ => false
  | NullableColumn cs => default false (fst <$> cs !! row)
  | ConstColumn _ _ => false
  | ConstNullColumn _ => true
  end.

(** [v[i]] on a vector. *)
Definition at_index (l : list T) (i : nat) : T := default default_value (l !! i).

(** [data[j]] with an [int] index.  A negative [j] points outside the data
    (before a raw array, past the end of a vector once converted to
    [size_t]); like the other reads outside the data it answers with the
    default value. *)
Definition at_int (l : list T) (j : Z) : T :=
  if j <? 0 then default_value else at_index l (Z.to_nat j).

Definition viewer_value (c : Column T) (row : nat) : T :=
  match c with
  | DataColumn d => at_index d row
  | NullableColumn cs => default default_value (snd <$> cs !! row)
  | ConstColumn v _ => v
  | ConstNullColumn _ => default_value
  end.

(** The logical rows of a column: [None] is a null row. *)
Definition cell_row (c : bool * T) : option T :=
  if c.1 then None else Some c.2.

Definition rows_of (c : Column T) : list (option T) :=
  match c with
  | DataColumn d => Some <$> d
  | NullableColumn cs => cell_row <$> cs
  | ConstColumn v n => replicate n (Some v)
  | ConstNullColumn n => replicate n None
  end.

(** Modelled from the spec: [ColumnBuilder], the writer: the data column
    under construction, its null column and the has-null flag.  [build] is
    [finish(is_constant)]: a constant output is the constant null column when
    a null was appended and else repeats the first value; a non-constant
    output is nullable when a null was appended and plain otherwise. *)
Record ColumnBuilder : Type := mkBuilder {
  b_data : list T;
  b_nulls : list bool;
  b_has_null : bool
}.

Definition builder_new : ColumnBuilder := mkBuilder [] [] false.

Definition append (b : ColumnBuilder) (v : T) : ColumnBuilder :=
  mkBuilder (b_data b ++ [v]) (b_nulls b ++ [false]) (b_has_null b).

Definition append_null (b : ColumnBuilder) : ColumnBuilder :=
  mkBuilder (b_data b ++ [default_value]) (b_nulls b ++ [true]) true.

Definition build (b : ColumnBuilder) (is_const : bool) : Column T :=
  if is_const && b_has_null b then ConstNullColumn (length (b_data b))
  else if is_const then
    ConstColumn (default default_value (head (b_data b))) (length (b_data b))
  else if b_has_null b then NullableColumn (zip (b_nulls b) (b_data b))
  else DataColumn (b_data b).

(** One row of output: [None] appends a null, [Some v] appends [v]. *)
Definition append_row (b : ColumnBuilder) (r : option T) : ColumnBuilder :=
  match r with
  | None => append_null b
  | Some v => append b v
  end.

(** The data slot and the null flag the builder stores for a row. *)
Definition row_slot (r : option T) : T := default default_value r.
Definition row_flag (r : option T) : bool := bool_decide (r = None).
End Columns.
Arguments ColumnBuilder T : clear implicits.

(** [for (int row = 0; row < size; ++row) body], threading the loop state. *)
Definition for_rows {S : Type} (n : nat) (body : S → nat → S) (s : S) : S :=
  fold_left body (seq 0 n) s.

(** [ColumnHelper::create_const_null_column]. *)
Definition create_const_null_column {T} (n : nat) : Column T := ConstNullColumn n.

(** ** The bitmap value *)

Module BitmapValue.
Abbreviation t := (gset N).

(** Modelled from the spec: the class [BitmapValue] is declared outside the
    source files; section 4.0 of the specification gives it as an ordered set
    of unsigned 64-bit integers with unique members, built empty and mutated
    by add, remove and the four set-algebra mutators. *)
Definition empty : t := ∅.
Definition add (b : t) (v : N) : t := b ∪ {[ v ]}.
Definition remove (b : t) (v : N) : t := b ∖ {[ v ]}.
Definition union_with (b x : t) : t := b ∪ x.               (* |= *)
Definition intersect_with (b x : t) : t := b ∩ x.           (* &= *)
Definition difference_with (b x : t) : t := b ∖ x.          (* -= *)
Definition symmetric_difference_with (b x : t) : t :=       (* ^= *)
  (b ∖ x) ∪ (x ∖ b).

(** Modelled from the spec: [cardinality] is the count of distinct members
    (a set that fits in memory has fewer than 2^63 of them, so the signed
    64-bit count is the count); [contains] is the membership test, negative
    values are never members; [from_members] builds a bitmap from an
    unordered list with possible duplicates. *)
Definition cardinality (b : t) : Z := Z.of_nat (size b).
Definition contains (b : t) (v : Z) : bool :=
  bool_decide (0 ≤ v ∧ Z.to_N v ∈ b).
Definition from_members (vs : list N) : t := list_to_set vs.

(** Modelled from the spec: the members in ascending order; [to_array]
    appends them to its output, a vector of [int64_t], so a member is stored
    as the signed 64-bit integer of the same bits; [to_string] is their
    ascending comma-separated decimal representation, [min] and [max] are
    absent on the empty set. *)
Definition members (b : t) : list N := merge_sort N.le (elements b).
Definition to_array (b : t) (out : list Z) : list Z :=
  out ++ ((λ m, to_int64 (Z.of_N m)) <$> members b).
Definition to_string (b : t) : string :=
  String.concat "," (pretty <$> members b).
Definition min (b : t) : option Z := Z.of_N <$> head (members b).
Definition max (b : t) : option Z := Z.of_N <$> last (members b).

(** Modelled from the spec: [sub_bitmap_internal] is the range extraction
    [extract_range] of section 4.0, defined outside the source files.  It
    gives the members starting at [offset] (a negative [offset] is counted
    from the highest member) and spanning up to [len] members in ascending
    order; the returned count is [0] when no member falls in the range. *)
Definition sub_bitmap_internal (b : t) (offset len : Z) : Z * t :=
  let ms := members b in
  let n := Z.of_nat (length ms) in
  let start := if offset <? 0 then n + offset else offset in
  if (start <? 0) || (n <=? start) || (len <=? 0) then (0, ∅)
  else
    let picked := take (Z.to_nat len) (drop (Z.to_nat start) ms) in
    (Z.of_nat (length picked), list_to_set picked).
End BitmapValue.

(** The same loop when the body may throw: once an iteration has thrown, the
    remaining iterations are skipped and the exception is the outcome. *)
Definition try_fold {S A : Type} (step : S → A → Result S) (l : list A)
    (acc : Result S) : Result S :=
  fold_left (λ acc x, s ← acc; step s x) l acc.

(** ** Array columns *)

(** The elements column of an array column: 64-bit integers, plain or
    nullable. *)
Inductive ElementsColumn : Type :=
| PlainElements (data : list Z)
| NullableElements (cells : list (bool * Z)).

(** [ArrayColumn]: the flattened elements and the row offsets; row [i] holds
    the elements at positions [offsets[i] .. offsets[i+1] - 1]. *)
Record ArrayColumn : Type := mkArray {
  elements_column : ElementsColumn;
  offsets_column : list Z
}.

(** A column of array type as a function receives or returns it: an array
    column, a nullable column around one, or the constant null column. *)
Inductive ArrayTypeColumn : Type :=
| ArrayCol (a : ArrayColumn)
| NullableArrayCol (a : ArrayColumn) (nulls : list bool)
| ConstNullArrayCol (n : nat).

Definition array_rows (a : ArrayColumn) : nat := length (offsets_column a) - 1.

Global Instance array_size : Size ArrayTypeColumn := λ c,
  match c with
  | ArrayCol a => array_rows a
  | NullableArrayCol a _ => array_rows a
  | ConstNullArrayCol n => n
  end.

Definition array_only_null (c : ArrayTypeColumn) : bool :=
  match c with ConstNullArrayCol _ => true | _ => false end.

Definition array_is_constant (c : ArrayTypeColumn) : bool :=
  match c with ConstNullArrayCol _ => true | _ => false end.

(** [ColumnHelper::get_data_column] on a column of array type. *)
Definition get_data_column (c : ArrayTypeColumn) : ArrayColumn :=
  match c with
  | ArrayCol a => a
  | NullableArrayCol a _ => a
  | ConstNullArrayCol _ => mkArray (PlainElements []) [0]
  end.

(** [null_column_data().data()] when the column is nullable, else [nullptr]. *)
Definition array_null_data (c : ArrayTypeColumn) : option (list bool) :=
  match c with
  | NullableArrayCol _ nulls => Some nulls
  | _ => None
  end.

Definition element_data (e : ElementsColumn) : list Z :=
  match e with
  | PlainElements d => d
  | NullableElements cs => snd <$> cs
  end.

Definition element_nulls (e : ElementsColumn) : option (list bool) :=
  match e with
  | PlainElements _ => None
  | NullableElements cs => Some (fst <$> cs)
  end.

(** [ptr && ptr[i]] on a null-flag pointer. *)
Definition flag_at (ptr : option (list bool)) (i : nat) : bool :=
  match ptr with
  | None => false
  | Some flags => at_index flags i
  end.
Definition flag_at_int (ptr : option (list bool)) (j : Z) : bool :=
  match ptr with
  | None => false
  | Some flags => at_int flags j
  end.

(** ** Collaborators *)

(** [StringParser::ParseResult]. *)
Inductive ParseResult : Type :=
| PARSE_SUCCESS
| PARSE_FAILURE
| PARSE_OVERFLOW
| PARSE_UNDERFLOW.

Module StringParser.
(** Modelled from the spec: the value of a run of decimal digits, for
    [string_to_unsigned_int] below; [None] on any other character. *)
Fixpoint digits_value (s : string) (acc : N) : option N :=
  match s with
  | EmptyString => Some acc
  | String a s' =>
      let code := Ascii.N_of_ascii a in
      if (48 <=? code)%N && (code <=? 57)%N
      then digits_value s' (acc * 10 + (code - 48))%N
      else None
  end.

(** Modelled from the spec: [StringParser::string_to_unsigned_int] is defined
    in util/string_parser.hpp, outside the source files; section 4.3 has it
    parse a text as an unsigned base-10 64-bit integer, with an explicit
    success or failure result.  A text is accepted when it is a non-empty run
    of decimal digits whose value is at most 18446744073709551615.  The
    functions below take the parser as a parameter; this one instantiates it
    at concrete batches. *)
Definition string_to_unsigned_int (s : string) : N * ParseResult :=
  match s with
  | EmptyString => (0%N, PARSE_FAILURE)
  | _ =>
      match digits_value s 0 with
      | None => (0%N, PARSE_FAILURE)
      | Some v =>
          if (v <=? UINT64_MAX)%N then (v, PARSE_SUCCESS)
          else (UINT64_MAX, PARSE_OVERFLOW)
      end
  end.
End StringParser.

(** Modelled from the spec: [FunctionContext] is declared in udf/udf.h,
    outside the source files; a diagnostic is "recorded" on the context and
    "surfaced to the caller", so the context is the list of the messages
    recorded on it, oldest first. *)
Definition FunctionContext : Type := list string.
Definition set_error (context : FunctionContext) (error_msg : string) : FunctionContext :=
  context ++ [error_msg].

(** Modelled from the spec: [strings::Substitute] is defined in
    gutil/strings/substitute.h, outside the source files; sections 4.3 and 7
    have the diagnostic of [to_bitmap] name the offending text, so the
    placeholder [{0}] of the format stands for the first argument and the
    rest of the format is copied. *)
Module strings.
Fixpoint Substitute (format : string) (arg0 : string) : string :=
  match format with
  | EmptyString => EmptyString
  | String a rest =>
      match rest with
      | String b (String c rest') =>
          if Ascii.eqb a "{"%char && Ascii.eqb b "0"%char && Ascii.eqb c "}"%char
          then arg0 +:+ Substitute rest' arg0
          else String a (Substitute rest arg0)
      | _ => String a (Substitute rest arg0)
      end
  end.
End strings.

(** Modelled from the spec: the macro RETURN_IF_COLUMNS_ONLY_NULL is defined
    outside the source files; section 4.1 has a function short-circuit to an
    all-null output column of the length of the batch as soon as one of its
    input columns is entirely null.  [any_only_null] is the macro's test. *)
Definition any_only_null (flags : list bool) : bool := existsb id flags.

(** Modelled from the spec: the templates VectorizedStrictBinaryFunction and
    VectorizedStringStrictUnaryFunction are defined outside the source files;
    by the default rule of section 4.1 a row of the output is null when one of
    its inputs is null at that row, and the implementation function is applied
    to the values of the other rows.  An exception thrown by the
    implementation function leaves the loop and the call. *)
Definition VectorizedStrictBinaryFunction {A B R : Type}
    `{!DefaultValue A, !DefaultValue B, !DefaultValue R}
    (impl : A → B → R) (v1 : Column A) (v2 : Column B) : Column R :=
  if any_only_null [only_null v1; only_null v2]
  then create_const_null_column (size v1)
  else
    let builder :=
      for_rows (size v1) (λ builder row,
        if viewer_is_null v1 row || viewer_is_null v2 row then append_null builder
        else append builder (impl (viewer_value v1 row) (viewer_value v2 row)))
        builder_new in
    build builder (is_constant v1 && is_constant v2).

Definition VectorizedStringStrictUnaryFunction {A : Type} `{!DefaultValue A}
    (impl : A → Result string) (v1 : Column A) : Result (Column string) :=
  if any_only_null [only_null v1]
  then Ok (create_const_null_column (size v1))
  else
    builder ← for_rows (size v1) (λ acc row,
        builder ← acc;
        if viewer_is_null v1 row then Ok (append_null builder)
        else ret ← impl (viewer_value v1 row); Ok (append builder ret))
        (Ok builder_new);
    Ok (build builder (is_constant v1)).

(** ** The functions of bitmap_functions.cpp *)

Module BitmapFunctions.
Section Functions.
(** Collaborators and configuration defined outside the source files. *)
(** [StringParser::string_to_unsigned_int<uint64_t>]: value and result code. *)
Variable string_to_unsigned_int : string → N * ParseResult.
(** [HashUtil::murmur_hash3_32] with [MURMUR3_32_SEED]: a [uint32_t]. *)
Variable murmur_hash3_32 : string → N.
(** [config::max_length_for_bitmap_function]. *)
Variable max_length_for_bitmap_function : Z.
(** [SplitStringAndParse] with [","] and [safe_strtou64]: success and the
    numbers pushed on the cleared vector. *)
Variable SplitStringAndParse : string → bool * list N.
(** [base64_decode2]: its return value and the bytes it wrote at the start
    of the destination buffer. *)
Variable base64_decode2 : string → Z * list Ascii.ascii.
(** [new char[n]]: a buffer of indeterminate content. *)
Variable new_char_array : Z → list Ascii.ascii.
(** [BitmapValue::deserialize] on a receiver and a buffer: whether the bytes
    were accepted, and the receiver afterwards. *)
Variable deserialize : BitmapValue.t → list Ascii.ascii → bool * BitmapValue.t.

(** The argument [to_bitmap] hands to [set_error] for a rejected text: the
    substituted format, read as a C string. *)
Definition to_bitmap_error (text : string) : string :=
  c_str (strings.Substitute
    "The input: {0} is not valid, to_bitmap only support bigint value from 0 to 18446744073709551615 currently"
    text).

Definition to_bitmap (context : FunctionContext) (c0 : Column string)
  : Column BitmapValue.t * FunctionContext :=
  let sz := size c0 in
  let '(builder, context) :=
    for_rows sz (λ '(builder, context) row,
      if viewer_is_null c0 row then (append_null builder, context)
      else
        let slice := viewer_value c0 row in
        let '(value, parse_result) := string_to_unsigned_int slice in
        match parse_result with
        | PARSE_SUCCESS =>
            let bitmap := BitmapValue.add BitmapValue.empty value in
            (append builder bitmap, context)
        | _ => (append_null builder, set_error context (to_bitmap_error slice))
        end)
      (builder_new, context) in
  (build builder (is_constant c0), context).

Definition bitmap_hash (c0 : Column string) : Column BitmapValue.t :=
  let sz := size c0 in
  let builder :=
    for_rows sz (λ builder row,
      let bitmap := BitmapValue.empty in
      let bitmap :=
        if negb (viewer_is_null c0 row) then
          let slice := viewer_value c0 row in
          let hash_value := murmur_hash3_32 slice in
          BitmapValue.add bitmap hash_value
        else bitmap in
      append builder bitmap)
      builder_new in
  build builder (is_constant c0).

Definition bitmap_count (c0 : Column BitmapValue.t) : Column Z :=
  let sz := size c0 in
  let builder :=
    for_rows sz (λ builder row,
      let value :=
        if viewer_is_null c0 row then 0
        else BitmapValue.cardinality (viewer_value c0 row) in
      append builder value)
      builder_new in
  build builder (is_constant c0).

Definition bitmap_empty : Column BitmapValue.t :=
  ConstColumn BitmapValue.empty 1.

(** The shared shape of [bitmap_or], [bitmap_and], [bitmap_andnot] and
    [bitmap_xor]: a fresh bitmap is united with the left operand, then the
    second operator is applied with the right operand. *)
Definition binary_rows (op : BitmapValue.t → BitmapValue.t → BitmapValue.t)
    (c0 c1 : Column BitmapValue.t) : Column BitmapValue.t :=
  if any_only_null [only_null c0; only_null c1]
  then create_const_null_column (size c0)
  else
    let sz := size c0 in
    let builder :=
      for_rows sz (λ builder row,
        if viewer_is_null c0 row || viewer_is_null c1 row then append_null builder
        else
          let bitmap := BitmapValue.empty in
          let bitmap := BitmapValue.union_with bitmap (viewer_value c0 row) in
          let bitmap := op bitmap (viewer_value c1 row) in
          append builder bitmap)
        builder_new in
    build builder (is_constant c0 && is_constant c1).

Definition bitmap_or := binary_rows BitmapValue.union_with.
Definition bitmap_and := binary_rows BitmapValue.intersect_with.
Definition bitmap_andnot := binary_rows BitmapValue.difference_with.
Definition bitmap_xor := binary_rows BitmapValue.symmetric_difference_with.

Definition bitmapToStingImpl (bitmap_ptr : BitmapValue.t) : Result string :=
  if max_length_for_bitmap_function <? BitmapValue.cardinality bitmap_ptr then
    Throw ("bitmap_to_string not supported size > " +:+
           pretty max_length_for_bitmap_function)
  else Ok (BitmapValue.to_string bitmap_ptr).

Definition bitmap_to_string (c0 : Column BitmapValue.t) : Result (Column string) :=
  VectorizedStringStrictUnaryFunction bitmapToStingImpl c0.

Definition bitmap_from_string (c0 : Column string) : Column BitmapValue.t :=
  if any_only_null [only_null c0]
  then create_const_null_column (size c0)
  else
    let sz := size c0 in
    let builder :=
      for_rows sz (λ builder row,
        if viewer_is_null c0 row then append_null builder
        else
          let slice := viewer_value c0 row in
          let '(parsed, bits) := SplitStringAndParse slice in
          if (INT32_MAX <? Z.of_nat (String.length slice)) || negb parsed
          then append_null builder
          else
            let bitmap := BitmapValue.from_members bits in
            append builder bitmap)
        builder_new in
    build builder (is_constant c0).

Definition bitmapContainsImpl (bitmap_ptr : BitmapValue.t) (int_value : Z) : bool :=
  BitmapValue.contains bitmap_ptr int_value.

Definition bitmap_contains (c0 : Column BitmapValue.t) (c1 : Column Z) : Column bool :=
  VectorizedStrictBinaryFunction bitmapContainsImpl c0 c1.

Definition bitmapHasAny (lhs rhs : BitmapValue.t) : bool :=
  let bitmap := BitmapValue.empty in
  let bitmap := BitmapValue.union_with bitmap lhs in
  let bitmap := BitmapValue.intersect_with bitmap rhs in
  negb (BitmapValue.cardinality bitmap =? 0).

Definition bitmap_has_any (c0 c1 : Column BitmapValue.t) : Column bool :=
  VectorizedStrictBinaryFunction bitmapHasAny c0 c1.

Definition bitmap_remove (c0 : Column BitmapValue.t) (c1 : Column Z)
  : Column BitmapValue.t :=
  if any_only_null [only_null c0; only_null c1]
  then create_const_null_column (size c0)
  else
    let sz := size c0 in
    let builder :=
      for_rows sz (λ builder row,
        if viewer_is_null c0 row || viewer_is_null c1 row then append_null builder
        else
          let bitmap := BitmapValue.empty in
          let bitmap := BitmapValue.union_with bitmap (viewer_value c0 row) in
          let bitmap := BitmapValue.remove bitmap (to_uint64 (viewer_value c1 row)) in
          append builder bitmap)
        builder_new in
    build builder (is_constant c0 && is_constant c1).

(** [data_size] is passed by pointer in the source; the new value is
    returned. *)
Definition detect_bitmap_cardinality (data_size : Z) (cardinality : Z) : Result Z :=
  if max_length_for_bitmap_function <? cardinality then
    Throw ("bitmap_to_array not supported size > " +:+
           pretty max_length_for_bitmap_function)
  else Ok ((data_size + cardinality) mod 2 ^ 64).

(** The first pass of [bitmap_to_array]: the total element count. *)
Definition bitmap_to_array_data_size (c0 : Column BitmapValue.t) : Result Z :=
  let sz := size c0 in
  if has_null c0 then
    for_rows sz (λ acc row,
      data_size ← acc;
      if negb (viewer_is_null c0 row) then
        let cardinality := BitmapValue.cardinality (viewer_value c0 row) in
        detect_bitmap_cardinality data_size cardinality
      else Ok data_size)
      (Ok 0)
  else
    for_rows sz (λ acc row,
      data_size ← acc;
      let cardinality := BitmapValue.cardinality (viewer_value c0 row) in
      detect_bitmap_cardinality data_size cardinality)
      (Ok 0).

(** The second pass: offsets and flattened values.  The state is
    [(array_offsets, array_bigint_column, offset)]; [offset] is an [int], it
    is appended to the [uint32_t] offsets and advanced by the 64-bit
    cardinality. *)
Definition bitmap_to_array_fill (c0 : Column BitmapValue.t)
  : list Z * list Z * Z :=
  let sz := size c0 in
  if has_null c0 then
    for_rows sz (λ '(array_offsets, array_bigint_column, offset) row,
      let array_offsets := array_offsets ++ [to_uint32 offset] in
      if viewer_is_null c0 row then (array_offsets, array_bigint_column, offset)
      else
        let bitmap := viewer_value c0 row in
        (array_offsets, BitmapValue.to_array bitmap array_bigint_column,
         to_int32 (offset + BitmapValue.cardinality bitmap)))
      ([], [], 0)
  else
    for_rows sz (λ '(array_offsets, array_bigint_column, offset) row,
      let array_offsets := array_offsets ++ [to_uint32 offset] in
      let bitmap := viewer_value c0 row in
      (array_offsets, BitmapValue.to_array bitmap array_bigint_column,
       to_int32 (offset + BitmapValue.cardinality bitmap)))
      ([], [], 0).

Definition bitmap_to_array (c0 : Column BitmapValue.t) : Result ArrayTypeColumn :=
  let sz := size c0 in
  data_size ← bitmap_to_array_data_size c0;
  let '(array_offsets, array_bigint_column, offset) := bitmap_to_array_fill c0 in
  let array_offsets := array_offsets ++ [to_uint32 offset] in
  let elements :=
    NullableElements
      (zip (replicate (Z.to_nat (to_size_t offset)) false) array_bigint_column) in
  if negb (has_null c0) then Ok (ArrayCol (mkArray elements array_offsets))
  else if only_null c0 then Ok (ConstNullArrayCol sz)
  else Ok (NullableArrayCol (mkArray elements array_offsets) (null_column c0)).

(** The inner loop is [for (int j = offset; j < offset + length; j++)] with
    [offset] and [length] of type [uint32_t]: the test compares [j] as an
    unsigned value, so the loop goes through the unsigned values [u] from
    [offset] up to [offset + length], and [j] is the [int] holding [u]. *)
Definition array_to_bitmap (c0 : ArrayTypeColumn) : Column BitmapValue.t :=
  if any_only_null [array_only_null c0]
  then create_const_null_column (size c0)
  else
    let sz := size c0 in
    let null_data := array_null_data c0 in
    let array_column := get_data_column c0 in
    let element_container := element_data (elements_column array_column) in
    let offsets := offsets_column array_column in
    let element_null_data := element_nulls (elements_column array_column) in
    let builder :=
      for_rows sz (λ builder row,
        let offset := at_index offsets row in
        let length := (at_index offsets (row + 1) - at_index offsets row) mod 2 ^ 32 in
        if flag_at null_data row then append_null builder
        else
          let stop := (offset + length) mod 2 ^ 32 in
          let bitmap :=
            fold_left (λ bitmap u,
              let j := to_int32 (Z.of_nat u) in
              if flag_at_int element_null_data j then bitmap
              else if 0 <=? at_int element_container j
                   then BitmapValue.add bitmap (to_uint64 (at_int element_container j))
                   else bitmap)
              (seq (Z.to_nat offset) (Z.to_nat (stop - offset)))
              BitmapValue.empty in
          append builder bitmap)
        builder_new in
    build builder (array_is_constant c0).

Definition bitmap_max (c0 : Column BitmapValue.t) : Column Z :=
  let sz := size c0 in
  let builder :=
    for_rows sz (λ builder row,
      if viewer_is_null c0 row then append_null builder
      else
        match BitmapValue.max (viewer_value c0 row) with
        | Some max_value => append builder max_value
        | None => append_null builder
        end)
      builder_new in
  build builder (is_constant c0).

Definition bitmap_min (c0 : Column BitmapValue.t) : Column Z :=
  let sz := size c0 in
  let builder :=
    for_rows sz (λ builder row,
      if viewer_is_null c0 row then append_null builder
      else
        match BitmapValue.min (viewer_value c0 row) with
        | Some min_value => append builder min_value
        | None => append_null builder
        end)
      builder_new in
  build builder (is_constant c0).

(** The loop state of [base64_to_bitmap] is [(builder, p, last_len)]: the
    scratch buffer [p] keeps, past the bytes of the last decoding, what it
    held before. *)
Definition base64_to_bitmap (c0 : Column string) : Column BitmapValue.t :=
  let sz := size c0 in
  let '(builder, _, _) :=
    for_rows sz (λ '(builder, p, last_len) row,
      if viewer_is_null c0 row then (append_null builder, p, last_len)
      else
        let src_value := viewer_value c0 row in
        let ssize := Z.of_nat (String.length src_value) in
        if ssize =? 0 then (append_null builder, p, last_len)
        else
          let curr_len := ssize + 3 in
          let '(p, last_len) :=
            if last_len <? curr_len then (new_char_array curr_len, curr_len)
            else (p, last_len) in
          let '(decode_res, written) := base64_decode2 src_value in
          let p := written ++ drop (length written) p in
          if decode_res <? 0 then (append_null builder, p, last_len)
          else
            let bitmap := BitmapValue.empty in
            let '(_, bitmap) := deserialize bitmap p in
            (append builder bitmap, p, last_len))
      (builder_new, [], 0) in
  build builder (is_constant c0).

(** [c2] is [None] when the call has two columns. *)
Definition sub_bitmap (c0 : Column BitmapValue.t) (c1 : Column Z)
    (c2 : option (Column Z)) : Column BitmapValue.t :=
  if any_only_null
       (only_null c0 :: only_null c1 :: option_list (only_null <$> c2))
  then create_const_null_column (size c0)
  else
    let len_column :=
      match c2 with
      | Some c => c
      | None => ConstColumn INT32_MAX (size c0)
      end in
    let sz := size c0 in
    let builder :=
      for_rows sz (λ builder row,
        if viewer_is_null c0 row || viewer_is_null c1 row ||
           viewer_is_null len_column row || (viewer_value len_column row <=? 0)
        then append_null builder
        else
          let bitmap := viewer_value c0 row in
          let offset := viewer_value c1 row in
          let len := viewer_value len_column row in
          if (BitmapValue.cardinality bitmap =? 0) || (offset =? INT_MIN) || (len <=? 0)
          then append_null builder
          else
            let '(found, ret_bitmap) :=
              BitmapValue.sub_bitmap_internal bitmap offset len in
            if found =? 0 then append_null builder
            else append builder ret_bitmap)
        builder_new in
    build builder
      (forallb id (is_constant c0 :: is_constant c1 :: option_list (is_constant <$> c2))).
End Functions.
End BitmapFunctions.

(** ** The row computed by each loop body

    The output row a loop body appends at index [row], read off the body. *)

Module Rows.
Section Rows.
Variable string_to_unsigned_int : string → N * ParseResult.

Definition to_bitmap_row (c0 : Column string) (row : nat) : option BitmapValue.t :=
  if viewer_is_null c0 row then None
  else
    match string_to_unsigned_int (viewer_value c0 row) with
    | (value, PARSE_SUCCESS) => Some (BitmapValue.add BitmapValue.empty value)
    | _ => None
    end.

Definition to_bitmap_row_errors (c0 : Column string) (row : nat) : list string :=
  if viewer_is_null c0 row then []
  else
    match string_to_unsigned_int (viewer_value c0 row) with
    | (_, PARSE_SUCCESS) => []
    | _ => [BitmapFunctions.to_bitmap_error (viewer_value c0 row)]
    end.

Variable max_length_for_bitmap_function : Z.

(** One iteration of the loop of the strict unary template around
    [bitmapToStingImpl]. *)
Definition to_string_step (c0 : Column BitmapValue.t)
    (builder : ColumnBuilder string) (row : nat) : Result (ColumnBuilder string) :=
  if viewer_is_null c0 row then Ok (append_null builder)
  else
    ret ← BitmapFunctions.bitmapToStingImpl max_length_for_bitmap_function
            (viewer_value c0 row);
    Ok (append builder ret).
End Rows.
End Rows.

(** The total output element count of a batch of bitmaps, summed over its
    non-null rows. *)
Definition total_element_count (c0 : Column BitmapValue.t) : Z :=
  foldr (λ r acc, from_option BitmapValue.cardinality 0 r + acc) 0 (rows_of c0).

(** The logical row a viewer shows at an index. *)
Definition view {T : Type} `{!DefaultValue T} (c : Column T) (row : nat) : option T :=
  if viewer_is_null c row then None else Some (viewer_value c row).

(** The row [sub_bitmap] appends for a bitmap, an offset and a length, each
    possibly null: the two tests of the loop body, then the extraction. *)
Definition sub_bitmap_cell (bitmap : option BitmapValue.t) (offset len : option Z)
  : option BitmapValue.t :=
  match bitmap, offset, len with
  | Some bitmap, Some offset, Some len =>
      if len <=? 0 then None
      else if (BitmapValue.cardinality bitmap =? 0) || (offset =? INT_MIN) || (len <=? 0)
      then None
      else
        let '(found, ret_bitmap) := BitmapValue.sub_bitmap_internal bitmap offset len in
        if found =? 0 then None else Some ret_bitmap
  | _, _, _ => None
  end.

(** The length column [sub_bitmap] reads. *)
Definition sub_bitmap_len_column (c0 : Column BitmapValue.t) (c2 : option (Column Z))
  : Column Z :=
  match c2 with
  | Some c => c
  | None => ConstColumn INT32_MAX (size c0)
  end.

(** The row of a strict binary loop: null when either input is null. *)
Definition strict_cell {A B R : Type} (g : A → B → R) (a : option A) (b : option B)
  : option R :=
  match a, b with
  | Some x, Some y => Some (g x y)
  | _, _ => None
  end.

(** Whether the loop body of [base64_to_bitmap] appends a null for an input
    row: the row is null, its text is empty, or the decoding is refused. *)
Definition base64_null_input (base64_decode2 : string → Z * list Ascii.ascii)
    (r : option string) : bool :=
  match r with
  | None => true
  | Some src_value =>
      (Z.of_nat (String.length src_value) =? 0) || ((base64_decode2 src_value).1 <? 0)
  end.

(** The logical elements of an elements column, and the array a row of an
    array column holds: the elements between its two offsets. *)
Definition element_rows (e : ElementsColumn) : list (option Z) :=
  match e with
  | PlainElements d => Some <$> d
  | NullableElements cs => cell_row <$> cs
  end.

Definition array_row_elements (a : ArrayColumn) (row : nat) : list (option Z) :=
  let o0 := at_index (offsets_column a) row in
  let o1 := at_index (offsets_column a) (row + 1) in
  take (Z.to_nat (o1 - o0)) (drop (Z.to_nat o0) (element_rows (elements_column a))).

(** A row of an array column is well formed when its two offsets exist, are
    ordered, fit in an [int] and lie inside the elements column. *)
Definition array_row_wf (a : ArrayColumn) (row : nat) : Prop :=
  ∃ o0 o1, offsets_column a !! row = Some o0 ∧
           offsets_column a !! (row + 1)%nat = Some o1 ∧
           0 ≤ o0 ≤ o1 ∧ o1 < 2 ^ 31 ∧
           o1 ≤ Z.of_nat (length (element_data (elements_column a))).

(** The elements are [int64_t] values. *)
Definition elements_int64 (a : ArrayColumn) : Prop :=
  Forall (λ e, - 2 ^ 63 ≤ e < 2 ^ 63) (element_data (elements_column a)).

(** The message the function context keeps for a text [to_bitmap] rejects:
    the sentence naming the text and the range when the text holds no NUL
    byte, and otherwise what comes before the first NUL byte of the text,
    where the C string ends. *)
Definition to_bitmap_message (text : string) : string :=
  if has_nul text then "The input: " +:+ c_str text
  else "The input: " +:+ text +:+
       " is not valid, to_bitmap only support bigint value from 0 to 18446744073709551615 currently".

(** The diagnostic [to_bitmap] records for an input row: the message for the
    text when the parser does not report success, nothing for a null row or
    an accepted text. *)
Definition to_bitmap_diagnostic (string_to_unsigned_int : string → N * ParseResult)
    (r : option string) : option string :=
  match r with
  | None => None
  | Some text =>
      match (string_to_unsigned_int text).2 with
      | PARSE_SUCCESS => None
      | _ => Some (to_bitmap_message text)
      end
  end.

(** The row [bitmap_from_string] appends for an input row, for a given
    [SplitStringAndParse]: the tests of the loop body on the text. *)
Definition from_string_cell (SplitStringAndParse : string → bool * list N)
    (r : option string) : option BitmapValue.t :=
  match r with
  | None => None
  | Some slice =>
      let '(parsed, bits) := SplitStringAndParse slice in
      if (INT32_MAX <? Z.of_nat (String.length slice)) || negb parsed then None
      else Some (BitmapValue.from_members bits)
  end.

(** What the second pass of [bitmap_to_array] adds for an input row: the
    values appended to the flattened column, which are the members in
    ascending order, each stored as an [int64_t], and their count. *)
Definition row_values (r : option BitmapValue.t) : list Z :=
  from_option (λ b, (λ m, to_int64 (Z.of_N m)) <$> BitmapValue.members b) [] r.

Definition row_count (r : option BitmapValue.t) : Z :=
  from_option BitmapValue.cardinality 0 r.

(** One iteration of the second pass on the row [r], on the state
    [(array_offsets, array_bigint_column, offset)], with [offset] an [int]. *)
Definition fill_step (s : list Z * list Z * Z) (r : option BitmapValue.t)
  : list Z * list Z * Z :=
  let '(array_offsets, array_bigint_column, offset) := s in
  (array_offsets ++ [to_uint32 offset], array_bigint_column ++ row_values r,
   match r with
   | Some bitmap => to_int32 (offset + BitmapValue.cardinality bitmap)
   | None => offset
   end).

(** The offsets the second pass appends from [start] on as long as the sums
    fit an [int]: running sums of the row counts. *)
Fixpoint offsets_from (start : Z) (rs : list (option BitmapValue.t)) : list Z :=
  match rs with
  | [] => []
  | r :: rs' => start :: offsets_from (start + row_count r) rs'
  end.

Definition count_rows (rs : list (option BitmapValue.t)) : Z :=
  foldr (λ r acc, row_count r + acc) 0 rs.

Definition flat_values (rs : list (option BitmapValue.t)) : list Z :=
  mjoin (row_values <$> rs).

(** The members of every bitmap of a column fit a non-negative [int64_t]. *)
Definition members_int64 (c0 : Column BitmapValue.t) : Prop :=
  ∀ row (b : BitmapValue.t) (x : N),
    rows_of c0 !! row = Some (Some b) → x ∈ b → Z.of_N x < 2 ^ 63.

(** The array column [bitmap_to_array] builds from the rows [rs] when their
    total count fits an [int]: every element non-null, the offsets the
    running sums closed by the total. *)
Definition built_array (rs : list (option BitmapValue.t)) : ArrayColumn :=
  mkArray (NullableElements
             (zip (replicate (Z.to_nat (count_rows rs)) false) (flat_values rs)))
          (offsets_from 0 rs ++ [count_rows rs]).

(** What a row of [base64_to_bitmap] does to the scratch buffer and its
    recorded length [(p, last_len)]: a null row and an empty text leave them
    alone; for another text the buffer is replaced by a new one when it is
    shorter than the text plus 3, and the decoder writes its bytes at the
    start of the buffer, over what was there. *)
Definition base64_scratch_step (base64_decode2 : string → Z * list Ascii.ascii)
    (new_char_array : Z → list Ascii.ascii)
    (s : list Ascii.ascii * Z) (input : option string) : list Ascii.ascii * Z :=
  match input with
  | None => s
  | Some src_value =>
      let ssize := Z.of_nat (String.length src_value) in
      if ssize =? 0 then s
      else
        let curr_len := ssize + 3 in
        let p := if s.2 <? curr_len then new_char_array curr_len else s.1 in
        let last_len := if s.2 <? curr_len then curr_len else s.2 in
        let written := (base64_decode2 src_value).2 in
        (written ++ drop (length written) p, last_len)
  end.

(** The buffer the decoder is given for [text] once the rows [before] have
    been processed: the buffer these rows left, or a new one when that
    buffer is too short. *)
Definition base64_scratch (base64_decode2 : string → Z * list Ascii.ascii)
    (new_char_array : Z → list Ascii.ascii)
    (before : list (option string)) (text : string) : list Ascii.ascii :=
  let s := fold_left (base64_scratch_step base64_decode2 new_char_array) before ([], 0) in
  let curr_len := Z.of_nat (String.length text) + 3 in
  if s.2 <? curr_len then new_char_array curr_len else s.1.

(** The row [base64_to_bitmap] appends for an input row when the scratch
    buffer and its length are [s]. *)
Definition base64_row (base64_decode2 : string → Z * list Ascii.ascii)
    (new_char_array : Z → list Ascii.ascii)
    (deserialize : BitmapValue.t → list Ascii.ascii → bool * BitmapValue.t)
    (s : list Ascii.ascii * Z) (input : option string) : option BitmapValue.t :=
  match input with
  | None => None
  | Some src_value =>
      let ssize := Z.of_nat (String.length src_value) in
      if ssize =? 0 then None
      else if (base64_decode2 src_value).1 <? 0 then None
      else
        let curr_len := ssize + 3 in
        let p := if s.2 <? curr_len then new_char_array curr_len else s.1 in
        let written := (base64_decode2 src_value).2 in
        Some (deserialize BitmapValue.empty (written ++ drop (length written) p)).2
  end.

(** ** The row loop and the builder *)

Section BuilderFacts.
Context {T : Type} `{!DefaultValue T}.
Implicit Types (b : ColumnBuilder T) (rs : list (option T)).

Lemma append_rows_state rs b :
  fold_left append_row rs b =
  mkBuilder (b_data b ++ (row_slot <$> rs)) (b_nulls b ++ (row_flag <$> rs))
            (b_has_null b || existsb row_flag rs).
Proof.
  revert b. induction rs as [|r rs IH]; intros b; simpl.
  - rewrite !app_nil_r, orb_false_r. by destruct b.
  - rewrite IH. destruct r as [v|]; simpl;
      rewrite <- !app_assoc; simpl; f_equal.
    by rewrite orb_true_r.
Qed.

Lemma loop_as_rows (f : nat → option T) (l : list nat) b :
  fold_left (λ b row, append_row b (f row)) l b = fold_left append_row (f <$> l) b.
Proof. revert b. induction l as [|x l IH]; intros b; simpl; [done|apply IH]. Qed.

Lemma cell_rows_zip rs :
  cell_row <$> zip (row_flag <$> rs) (row_slot <$> rs) = rs.
Proof.
  induction rs as [|[v|] rs IH]; csimpl; [done| |]; by rewrite IH.
Qed.

Lemma rows_without_null rs :
  existsb row_flag rs = false → Some <$> (row_slot <$> rs) = rs.
Proof.
  induction rs as [|[v|] rs IH]; csimpl; intros H; [done| |done].
  by rewrite IH.
Qed.

Lemma rows_all_null rs :
  (∀ r r', r ∈ rs → r' ∈ rs → r = r') → existsb row_flag rs = true →
  rs = replicate (length rs) None.
Proof.
  intros Hsame Hex. apply existsb_exists in Hex as (r0 & Hin & Hr0).
  apply list_elem_of_In in Hin. apply bool_decide_eq_true in Hr0. subst r0.
  symmetry. apply replicate_as_Forall. split; [done|].
  apply Forall_forall. intros r Hr. by apply Hsame.
Qed.

Lemma rows_all_same rs :
  (∀ r r', r ∈ rs → r' ∈ rs → r = r') → existsb row_flag rs = false →
  rs = replicate (length rs) (Some (default default_value (head (row_slot <$> rs)))).
Proof.
  intros Hsame Hex. destruct rs as [|r0 rs]; [done|].
  symmetry. apply replicate_as_Forall. split; [done|].
  apply Forall_forall. intros r Hr.
  rewrite (Hsame r r0 Hr) by left. simpl.
  simpl in Hex. apply orb_false_elim in Hex as [Hr0 _].
  destruct r0; [done|]. by apply bool_decide_eq_false in Hr0.
Qed.

(** The column built from the rows [rs] has exactly the rows [rs]; building
    a constant column needs the rows to agree. *)
Lemma rows_of_build rs (is_const : bool) :
  (is_const = true → ∀ r r', r ∈ rs → r' ∈ rs → r = r') →
  rows_of (build (fold_left append_row rs builder_new) is_const) = rs.
Proof.
  intros Hsame. rewrite append_rows_state. unfold build; simpl.
  destruct is_const; simpl.
  - specialize (Hsame eq_refl).
    destruct (existsb row_flag rs) eqn:Hex; simpl.
    + rewrite length_fmap. symmetry. by apply rows_all_null.
    + rewrite length_fmap. symmetry. by apply rows_all_same.
  - destruct (existsb row_flag rs) eqn:Hex; simpl.
    + apply cell_rows_zip.
    + by apply rows_without_null.
Qed.

Lemma size_rows_of (c : Column T) : length (rows_of c) = size c.
Proof.
  destruct c; simpl; unfold size, column_size;
    by rewrite ?length_fmap, ?length_replicate.
Qed.

Lemma size_build rs (is_const : bool) :
  size (build (fold_left append_row rs builder_new) is_const) = length rs.
Proof.
  rewrite append_rows_state. unfold build, size, column_size; simpl.
  destruct is_const, (existsb row_flag rs); simpl;
    rewrite ?length_zip, ?length_fmap; lia.
Qed.
End BuilderFacts.

(** ** Loops over the rows of a batch *)

Section RowLoops.
Context {T : Type} `{!DefaultValue T}.

Lemma for_rows_builder (f : nat → option T) body n :
  (∀ (b : ColumnBuilder T) row, body b row = append_row b (f row)) →
  for_rows n body builder_new = fold_left append_row (f <$> seq 0 n) builder_new.
Proof.
  intros Hbody. unfold for_rows. rewrite <- loop_as_rows.
  generalize (seq 0 n) (@builder_new T). intros l.
  induction l as [|x l IH]; intros b; simpl; [done|].
  by rewrite Hbody, IH.
Qed.

Lemma for_rows_builder_ctx {C} (f : nat → option T) (e : nat → list C) body n ctx :
  (∀ (b : ColumnBuilder T) (c : list C) row,
      body (b, c) row = (append_row b (f row), c ++ e row)) →
  for_rows n body (builder_new, ctx) =
  (fold_left append_row (f <$> seq 0 n) builder_new, ctx ++ mjoin (e <$> seq 0 n)).
Proof.
  intros Hbody. unfold for_rows. rewrite <- loop_as_rows.
  generalize (seq 0 n) (@builder_new T). intros l. revert ctx.
  induction l as [|x l IH]; intros ctx b; simpl.
  - by rewrite app_nil_r.
  - rewrite Hbody, IH. by rewrite <- app_assoc.
Qed.

Lemma lookup_row_seq (f : nat → option T) n i :
  (i < n)%nat → (f <$> seq 0 n) !! i = Some (f i).
Proof. intros Hi. by rewrite list_lookup_fmap, lookup_seq_lt. Qed.

Lemma same_rows_seq (f : nat → option T) n :
  (∀ row, f row = f 0%nat) →
  ∀ r r', r ∈ f <$> seq 0 n → r' ∈ f <$> seq 0 n → r = r'.
Proof.
  intros Hf r r' (x & -> & _)%list_elem_of_fmap (y & -> & _)%list_elem_of_fmap.
  by rewrite (Hf x), (Hf y).
Qed.

(** A loop that appends one row per iteration builds the column of those
    rows; constness of the output needs the rows not to depend on the index. *)
Lemma rows_of_for_rows (f : nat → option T) body n (is_const : bool) :
  (∀ (b : ColumnBuilder T) row, body b row = append_row b (f row)) →
  (is_const = true → ∀ row, f row = f 0%nat) →
  rows_of (build (for_rows n body builder_new) is_const) = f <$> seq 0 n.
Proof.
  intros Hbody Hconst. rewrite (for_rows_builder f) by done.
  apply rows_of_build. intros Hc. by apply same_rows_seq, Hconst.
Qed.

Lemma viewer_const_is_null (c : Column T) row :
  is_constant c = true → viewer_is_null c row = viewer_is_null c 0.
Proof. by destruct c. Qed.

Lemma viewer_const_value (c : Column T) row :
  is_constant c = true → viewer_value c row = viewer_value c 0.
Proof. by destruct c. Qed.

(** What the viewer answers inside the column is the logical row. *)
Lemma viewer_row (c : Column T) row :
  (row < size c)%nat →
  rows_of c !! row =
  Some (if viewer_is_null c row then None else Some (viewer_value c row)).
Proof.
  unfold size, column_size. destruct c as [d|cs|v n|n]; simpl; intros Hrow.
  - unfold at_index. rewrite list_lookup_fmap.
    destruct (lookup_lt_is_Some_2 d row Hrow) as [x ->]. done.
  - rewrite !list_lookup_fmap.
    destruct (lookup_lt_is_Some_2 cs row Hrow) as [[fl x] ->]. simpl.
    unfold cell_row; simpl. by destruct fl.
  - by rewrite lookup_replicate_2.
  - by rewrite lookup_replicate_2.
Qed.
End RowLoops.

(** ** Loops that may throw *)

Section ThrowingLoops.
Context {S A : Type}.
Implicit Types (step : S → A → Result S) (l : list A) (acc : Result S).

Lemma try_fold_cons step x l s :
  try_fold step (x :: l) (Ok s) = try_fold step l (step s x).
Proof. reflexivity. Qed.

Lemma try_fold_thrown step l w : try_fold step l (Throw w) = Throw w.
Proof. induction l as [|x l IH]; simpl; [done|apply IH]. Qed.

(** When every iteration succeeds the loop succeeds. *)
Lemma try_fold_ok step (next : S → A → S) l s :
  (∀ s x, x ∈ l → step s x = Ok (next s x)) →
  try_fold step l (Ok s) = Ok (fold_left next l s).
Proof.
  revert s. induction l as [|x l IH]; intros s Hstep; [done|].
  rewrite try_fold_cons, Hstep by left. simpl.
  apply IH. intros s' y Hy. apply Hstep. by right.
Qed.

(** When some iteration throws, whatever the state, and every throw carries
    the message [w], the loop throws [w]. *)
Lemma try_fold_throw step l w s :
  (∀ s x w', x ∈ l → step s x = Throw w' → w' = w) →
  (∃ x, x ∈ l ∧ ∀ s, ∃ w', step s x = Throw w') →
  try_fold step l (Ok s) = Throw w.
Proof.
  revert s. induction l as [|x l IH]; intros s Hmsg (y & Hy & Hthrow).
  - by apply elem_of_nil in Hy.
  - rewrite try_fold_cons.
    destruct (step s x) as [s'|w'] eqn:Hstep.
    + apply IH.
      * intros s1 z w1 Hz. apply Hmsg. by right.
      * apply elem_of_cons in Hy as [->|Hy].
        -- destruct (Hthrow s) as [w1 Hw1]. congruence.
        -- eauto.
    + rewrite (Hmsg s x w' ltac:(left) Hstep). apply try_fold_thrown.
Qed.
End ThrowingLoops.

Section ThrowingRowLoops.
Context {S : Type}.
Implicit Types (step : S → nat → Result S).

Lemma for_rows_ok step (next : S → nat → S) n s :
  (∀ s row, (row < n)%nat → step s row = Ok (next s row)) →
  for_rows n (λ acc row, s ← acc; step s row) (Ok s) = Ok (for_rows n next s).
Proof.
  intros Hstep. apply (try_fold_ok step next).
  intros s' x Hx%elem_of_seq. apply Hstep. lia.
Qed.

Lemma for_rows_throw step n w s :
  (∀ s row w', step s row = Throw w' → w' = w) →
  (∃ row, (row < n)%nat ∧ ∀ s, ∃ w', step s row = Throw w') →
  for_rows n (λ acc row, s ← acc; step s row) (Ok s) = Throw w.
Proof.
  intros Hmsg (row & Hrow & Hthrow). apply (try_fold_throw step).
  - intros s' x w' _. apply Hmsg.
  - exists row. split; [apply elem_of_seq; lia|done].
Qed.
End ThrowingRowLoops.

Section NullFlags.
Context {T : Type} `{!DefaultValue T}.

Lemma no_null_viewer (c : Column T) row :
  has_null c = false → viewer_is_null c row = false.
Proof.
  destruct c as [d|cs|v n|n]; simpl; try done. intros Hex.
  destruct (cs !! row) as [[fl x]|] eqn:Hrow; simpl; [|done].
  destruct fl; [|done].
  assert (existsb fst cs = true); [|congruence].
  apply existsb_exists. exists (true, x). split; [|done].
  apply list_elem_of_In. by eapply list_elem_of_lookup_2.
Qed.
End NullFlags.

(** ** Loops that thread more than the builder *)

Section StatefulLoops.
Context {T : Type} `{!DefaultValue T} {S : Type}.

(** A loop whose state holds the builder, and whose every iteration appends
    one row to it, leaves the builder with one row per iteration, each
    related to its index by the property the iterations establish. *)
Lemma builder_loop_rows (pb : S → ColumnBuilder T) (body : S → nat → S)
    (Q : nat → option T → Prop) n s0 :
  (∀ s row, ∃ r, pb (body s row) = append_row (pb s) r ∧ Q row r) →
  pb s0 = builder_new →
  ∃ rs, pb (for_rows n body s0) = fold_left append_row rs builder_new ∧
        length rs = n ∧ ∀ i r, rs !! i = Some r → Q i r.
Proof.
  intros Hbody Hs0. unfold for_rows. induction n as [|n IH].
  - exists []. simpl. split; [done|]. split; [done|]. intros i r. by rewrite lookup_nil.
  - destruct IH as (rs & Hrs & Hlen & HQ).
    rewrite seq_S, fold_left_app. simpl.
    destruct (Hbody (fold_left body (seq 0 n) s0) n) as (r & Hr & Hq).
    exists (rs ++ [r]). split; [|split].
    + by rewrite Hr, Hrs, fold_left_app.
    + rewrite length_app. simpl. lia.
    + intros i r' Hi. apply lookup_app_Some in Hi as [Hi|[Hge Hi]]; [by eapply HQ|].
      rewrite Hlen in *. apply list_lookup_singleton_Some in Hi as [Hi ->].
      by replace i with n by lia.
Qed.

(** Whether a row of the built column is null is decided by the appended
    row, provided a constant column is built from rows that are all null or
    all non-null. *)
Lemma build_row_null (rs : list (option T)) (is_const : bool) i r :
  rs !! i = Some r →
  (is_const = true → ∀ j r', rs !! j = Some r' → (r' = None ↔ r = None)) →
  ∃ r'', rows_of (build (fold_left append_row rs builder_new) is_const) !! i = Some r'' ∧
         (r'' = None ↔ r = None).
Proof.
  intros Hi Hsame. rewrite append_rows_state. unfold build; simpl.
  assert (Hlt : (i < length rs)%nat) by (by eapply lookup_lt_Some).
  destruct is_const; simpl.
  - specialize (Hsame eq_refl).
    destruct (existsb row_flag rs) eqn:Hex; simpl.
    + rewrite length_fmap, lookup_replicate_2 by done.
      eexists; split; [done|]. split; [intros _|done].
      apply existsb_exists in Hex as (r0 & Hin & Hr0).
      apply bool_decide_eq_true in Hr0. subst r0.
      apply list_elem_of_In, list_elem_of_lookup in Hin as [j Hj].
      by apply (Hsame j None).
    + rewrite length_fmap, lookup_replicate_2 by done.
      eexists; split; [done|]. split; [done|]. intros ->.
      assert (existsb row_flag rs = true); [|congruence].
      apply existsb_exists. exists None. split; [|done].
      apply list_elem_of_In. by eapply list_elem_of_lookup_2.
  - destruct (existsb row_flag rs) eqn:Hex; simpl.
    + rewrite cell_rows_zip. by exists r.
    + rewrite rows_without_null by done. by exists r.
Qed.
End StatefulLoops.

(** ** Reading logical rows through the viewer *)

Section LogicalRows.
Context {T : Type} `{!DefaultValue T}.

Lemma row_value (c : Column T) row v :
  rows_of c !! row = Some (Some v) →
  (row < size c)%nat ∧ viewer_is_null c row = false ∧ viewer_value c row = v.
Proof.
  intros Hrow. assert (Hlt : (row < size c)%nat).
  { rewrite <- size_rows_of. by eapply lookup_lt_Some. }
  split; [done|]. rewrite viewer_row in Hrow by done.
  destruct (viewer_is_null c row); naive_solver.
Qed.

End LogicalRows.

(** ** to_bitmap *)

Section ToBitmap.
Import BitmapFunctions Rows.
Variable parse : string → N * ParseResult.

Lemma to_bitmap_unfold context c0 :
  to_bitmap parse context c0 =
  (build (fold_left append_row (to_bitmap_row parse c0 <$> seq 0 (size c0)) builder_new)
         (is_constant c0),
   context ++ mjoin (to_bitmap_row_errors parse c0 <$> seq 0 (size c0))).
Proof.
  unfold to_bitmap.
  rewrite (for_rows_builder_ctx (to_bitmap_row parse c0) (to_bitmap_row_errors parse c0)).
  - done.
  - intros b c row. unfold to_bitmap_row, to_bitmap_row_errors, set_error.
    destruct (viewer_is_null c0 row); simpl; [by rewrite app_nil_r|].
    destruct (parse (viewer_value c0 row)) as [value []]; simpl;
      by rewrite ?app_nil_r.
Qed.

Lemma to_bitmap_rows_of context c0 :
  rows_of (to_bitmap parse context c0).1 = to_bitmap_row parse c0 <$> seq 0 (size c0).
Proof.
  rewrite to_bitmap_unfold. simpl. apply rows_of_build.
  intros Hc. apply same_rows_seq. intros row. unfold to_bitmap_row.
  by rewrite (viewer_const_is_null c0 row), (viewer_const_value c0 row).
Qed.

Lemma singleton_bitmap (value : N) :
  let bitmap := BitmapValue.add BitmapValue.empty value in
  BitmapValue.cardinality bitmap = 1 ∧ ∀ x, x ∈ bitmap ↔ x = value.
Proof.
  cbv zeta. unfold BitmapValue.add, BitmapValue.empty, BitmapValue.cardinality.
  rewrite (left_id_L ∅ (∪)), size_singleton. split; [done|set_solver].
Qed.
End ToBitmap.

Section CStrings.

Lemma c_str_app (a b : string) :
  c_str (a +:+ b) = if has_nul a then c_str a else a +:+ c_str b.
Proof.
  induction a as [|x a IH]; simpl; [done|].
  destruct (Ascii.eqb x Ascii.zero); simpl; [done|].
  rewrite IH. by destruct (has_nul a).
Qed.

Lemma c_str_without_nul (a : string) : has_nul a = false → c_str a = a.
Proof.
  induction a as [|x a IH]; simpl; [done|].
  destruct (Ascii.eqb x Ascii.zero); simpl; [done|]. intros Ha. by rewrite IH.
Qed.

(** The message [to_bitmap] records for a rejected text, spelled out: the
    text stands in the place of [{0}], and the message ends before the first
    NUL byte of the text. *)
Lemma to_bitmap_error_text (text : string) :
  BitmapFunctions.to_bitmap_error text =
  if has_nul text then "The input: " +:+ c_str text
  else "The input: " +:+ text +:+
       " is not valid, to_bitmap only support bigint value from 0 to 18446744073709551615 currently".
Proof.
  unfold BitmapFunctions.to_bitmap_error.
  change (strings.Substitute _ text) with
    ("The input: " +:+ (text +:+
       " is not valid, to_bitmap only support bigint value from 0 to 18446744073709551615 currently")).
  rewrite (c_str_app "The input: "). simpl has_nul. cbv iota.
  rewrite c_str_app. destruct (has_nul text); [done|].
  by rewrite c_str_without_nul.
Qed.

End CStrings.




(** ** bitmap_to_string *)

Section LogicalRowsOfViewer.
Context {T : Type} `{!DefaultValue T}.

Lemma rows_of_viewer (c : Column T) :
  rows_of c =
  (λ row, if viewer_is_null c row then None else Some (viewer_value c row))
    <$> seq 0 (size c).
Proof.
  apply list_eq. intros i. destruct (decide (i < size c)%nat) as [Hi|Hi].
  - by rewrite viewer_row, lookup_row_seq.
  - rewrite !lookup_ge_None_2; [done| |].
    + rewrite length_fmap, length_seq. lia.
    + rewrite size_rows_of. lia.
Qed.

Lemma only_null_no_value (c : Column T) row v :
  rows_of c !! row = Some (Some v) → only_null c = false.
Proof.
  destruct c; try done. simpl. intros [? _]%lookup_replicate. done.
Qed.
End LogicalRowsOfViewer.

Section BitmapToString.
Import BitmapFunctions.
Variable max : Z.

Lemma bitmap_to_string_unfold c0 :
  only_null c0 = false →
  bitmap_to_string max c0 =
  (builder ← try_fold (Rows.to_string_step max c0) (seq 0 (size c0)) (Ok builder_new);
   Ok (build builder (is_constant c0))).
Proof.
  intros Hnull. unfold bitmap_to_string, VectorizedStringStrictUnaryFunction.
  unfold any_only_null. simpl. by rewrite Hnull.
Qed.

Lemma bitmapToStingImpl_over bitmap :
  max < BitmapValue.cardinality bitmap →
  bitmapToStingImpl max bitmap =
  Throw ("bitmap_to_string not supported size > " +:+ pretty max).
Proof.
  intros Hover. unfold bitmapToStingImpl.
  by rewrite (proj2 (Z.ltb_lt _ _) Hover).
Qed.

Lemma bitmapToStingImpl_within bitmap :
  BitmapValue.cardinality bitmap ≤ max →
  bitmapToStingImpl max bitmap = Ok (BitmapValue.to_string bitmap).
Proof.
  intros Hin. unfold bitmapToStingImpl.
  by rewrite (proj2 (Z.ltb_ge _ _) Hin).
Qed.

Lemma bitmapToStingImpl_message bitmap w :
  bitmapToStingImpl max bitmap = Throw w →
  w = "bitmap_to_string not supported size > " +:+ pretty max.
Proof. unfold bitmapToStingImpl. case_match; congruence. Qed.
End BitmapToString.

(** The members of a bitmap in ascending order, without repetition. *)
Lemma members_ascending (bitmap : BitmapValue.t) :
  Sorted N.le (BitmapValue.members bitmap) ∧
  NoDup (BitmapValue.members bitmap) ∧
  ∀ x, x ∈ BitmapValue.members bitmap ↔ x ∈ bitmap.
Proof.
  unfold BitmapValue.members. split; [|split].
  - apply (Sorted_merge_sort N.le).
  - rewrite merge_sort_Permutation. apply NoDup_elements.
  - intros x. rewrite merge_sort_Permutation. apply elem_of_elements.
Qed.

Lemma members_set (b : BitmapValue.t) : list_to_set (BitmapValue.members b) = b.
Proof.
  destruct (members_ascending b) as (_ & _ & Hin).
  apply set_eq. intros x. by rewrite elem_of_list_to_set.
Qed.

Lemma members_length (b : BitmapValue.t) :
  Z.of_nat (length (BitmapValue.members b)) = BitmapValue.cardinality b.
Proof.
  unfold BitmapValue.cardinality, BitmapValue.members.
  by rewrite merge_sort_Permutation.
Qed.

(** C2. When some row of the input of [bitmap_to_string] holds a bitmap whose
    cardinality is above the configured maximum, the call throws the error
    that names the maximum, and no string is built for that bitmap; when every
    bitmap of the input is within the maximum, the call returns, a null row
    stays null and the row of a bitmap is its members in ascending order,
    in decimal, separated by commas. *)
Theorem bitmap_to_string_limit (max : Z) (c0 : Column BitmapValue.t) :
  ((∃ row bitmap, rows_of c0 !! row = Some (Some bitmap) ∧
                  max < BitmapValue.cardinality bitmap) →
   BitmapFunctions.bitmap_to_string max c0 =
   Throw ("bitmap_to_string not supported size > " +:+ pretty max)) ∧
  ((∀ row bitmap, rows_of c0 !! row = Some (Some bitmap) →
                  BitmapValue.cardinality bitmap ≤ max) →
   ∃ out, BitmapFunctions.bitmap_to_string max c0 = Ok out ∧
     rows_of out = fmap (M:=option) BitmapValue.to_string <$> rows_of c0) ∧
  (∀ bitmap, ∃ ms : list N, Sorted N.le ms ∧ NoDup ms ∧ (∀ x, x ∈ ms ↔ x ∈ bitmap) ∧
     BitmapValue.to_string bitmap = String.concat "," (pretty <$> ms)).
Proof.
  split; [|split].
  - intros (row & bitmap & Hrow & Hover).
    rewrite bitmap_to_string_unfold by (by eapply only_null_no_value).
    apply row_value in Hrow as (Hlt & Hnull & Hval).
    rewrite (try_fold_throw _ _
               ("bitmap_to_string not supported size > " +:+ pretty max)); [done| |].
    + intros b x w' _. unfold Rows.to_string_step. destruct (viewer_is_null c0 x); [done|].
      destruct (BitmapFunctions.bitmapToStingImpl max (viewer_value c0 x)) eqn:Himpl;
        simpl; [done|].
      intros [= <-]. by eapply bitmapToStingImpl_message.
    + exists row. split; [apply elem_of_seq; lia|].
      intros b. unfold Rows.to_string_step. rewrite Hnull, Hval.
      rewrite bitmapToStingImpl_over by done. by eexists.
  - intros Hwithin. destruct (only_null c0) eqn:Hon.
    + destruct c0; try done. eexists. split; [reflexivity|].
      simpl. by rewrite fmap_replicate.
    + rewrite bitmap_to_string_unfold by done.
      set (f := λ row, if viewer_is_null c0 row then None
                       else Some (BitmapValue.to_string (viewer_value c0 row))).
      rewrite (try_fold_ok _ (λ b row, append_row b (f row))).
      * eexists. split; [reflexivity|].
        fold (for_rows (size c0) (λ b row, append_row b (f row)) builder_new).
        rewrite (rows_of_for_rows f) by
          (try done; intros Hc row; unfold f;
           by rewrite (viewer_const_is_null c0 row), (viewer_const_value c0 row)).
        rewrite (rows_of_viewer c0), <- list_fmap_compose.
        apply list_fmap_ext. intros i x _. unfold f. simpl.
        by destruct (viewer_is_null c0 x).
      * intros b x Hx%elem_of_seq. unfold Rows.to_string_step, f.
        destruct (viewer_is_null c0 x) eqn:Hnull; [done|].
        rewrite bitmapToStingImpl_within; [done|].
        apply (Hwithin x). rewrite viewer_row by lia. by rewrite Hnull.
  - intros bitmap. exists (BitmapValue.members bitmap).
    destruct (members_ascending bitmap) as (? & ? & ?). done.
Qed.

Lemma bitmap_to_string_limit_witness :
  let c0 := DataColumn [({[ 1%N; 2%N ]} : gset N); {[ 3%N; 4%N; 5%N; 6%N ]}] in
  (∃ row bitmap, rows_of c0 !! row = Some (Some bitmap) ∧
                 3 < BitmapValue.cardinality bitmap) ∧
  BitmapFunctions.bitmap_to_string 3 c0 = Throw "bitmap_to_string not supported size > 3".
Proof.
  assert (H : ∃ row bitmap,
    rows_of (DataColumn [({[ 1%N; 2%N ]} : gset N); {[ 3%N; 4%N; 5%N; 6%N ]}]) !! row
      = Some (Some bitmap) ∧ 3 < BitmapValue.cardinality bitmap).
  { exists 1%nat, {[ 3%N; 4%N; 5%N; 6%N ]}. split; [reflexivity|]. vm_compute. reflexivity. }
  split; [exact H|].
  exact (proj1 (bitmap_to_string_limit 3 _) H).
Defined.

(** ** bitmap_to_array *)

Section BitmapToArray.
Import BitmapFunctions.
Variable max : Z.

Local Abbreviation to_array_error := ("bitmap_to_array not supported size > " +:+ pretty max).

Lemma detect_over data_size cardinality :
  max < cardinality →
  detect_bitmap_cardinality max data_size cardinality = Throw to_array_error.
Proof.
  intros Hover. unfold detect_bitmap_cardinality.
  by rewrite (proj2 (Z.ltb_lt _ _) Hover).
Qed.

Lemma detect_within data_size cardinality :
  cardinality ≤ max →
  detect_bitmap_cardinality max data_size cardinality =
  Ok ((data_size + cardinality) mod 2 ^ 64).
Proof.
  intros Hin. unfold detect_bitmap_cardinality.
  by rewrite (proj2 (Z.ltb_ge _ _) Hin).
Qed.

Lemma detect_message data_size cardinality w :
  detect_bitmap_cardinality max data_size cardinality = Throw w → w = to_array_error.
Proof. unfold detect_bitmap_cardinality. case_match; congruence. Qed.

(** The first pass throws exactly when the guard fires on a row. *)
Lemma data_size_over c0 row bitmap :
  rows_of c0 !! row = Some (Some bitmap) →
  max < BitmapValue.cardinality bitmap →
  bitmap_to_array_data_size max c0 = Throw to_array_error.
Proof.
  intros (Hlt & Hnull & Hval)%row_value Hover.
  unfold bitmap_to_array_data_size. destruct (has_null c0).
  - apply for_rows_throw.
    + intros s x w'. destruct (viewer_is_null c0 x); simpl; [done|].
      apply detect_message.
    + exists row. split; [done|]. intros s. rewrite Hnull, Hval. simpl.
      rewrite detect_over by done. by eexists.
  - apply for_rows_throw.
    + intros s x w'. apply detect_message.
    + exists row. split; [done|]. intros s. rewrite Hval.
      rewrite detect_over by done. by eexists.
Qed.

Lemma data_size_within c0 :
  (∀ row bitmap, rows_of c0 !! row = Some (Some bitmap) →
                 BitmapValue.cardinality bitmap ≤ max) →
  ∃ data_size, bitmap_to_array_data_size max c0 = Ok data_size.
Proof.
  intros Hwithin. unfold bitmap_to_array_data_size.
  destruct (has_null c0) eqn:Hhas.
  - eexists.
    apply (for_rows_ok _ (λ data_size row,
             if negb (viewer_is_null c0 row)
             then (data_size + BitmapValue.cardinality (viewer_value c0 row)) mod 2 ^ 64
             else data_size)).
    intros s row Hrow. destruct (viewer_is_null c0 row) eqn:Hnull; simpl; [done|].
    apply detect_within, (Hwithin row). rewrite viewer_row by done. by rewrite Hnull.
  - eexists.
    apply (for_rows_ok _ (λ data_size row,
             (data_size + BitmapValue.cardinality (viewer_value c0 row)) mod 2 ^ 64)).
    intros s row Hrow.
    apply detect_within, (Hwithin row). rewrite viewer_row by done.
    by rewrite no_null_viewer.
Qed.

(** The count the first pass keeps: the cardinalities of the non-null rows
    added up in a [size_t]. *)
Lemma running_count (rs : list (option BitmapValue.t)) (data_size : Z) :
  0 ≤ data_size < 2 ^ 64 →
  fold_left (λ data_size r,
               match r with
               | Some bitmap => (data_size + BitmapValue.cardinality bitmap) mod 2 ^ 64
               | None => data_size
               end) rs data_size
  = (data_size + foldr (λ r acc, from_option BitmapValue.cardinality 0 r + acc) 0 rs)
    mod 2 ^ 64.
Proof.
  revert data_size. induction rs as [|[b|] rs IH]; intros ds Hds; simpl.
  - rewrite Z.add_0_r, Z.mod_small; lia.
  - rewrite IH by (apply Z.mod_pos_bound; lia).
    rewrite Zplus_mod_idemp_l. f_equal. lia.
  - by rewrite IH.
Qed.

Lemma fold_left_rows {A B S : Type} (f : S → B → S) (g : A → B) (l : list A) (s : S) :
  fold_left f (g <$> l) s = fold_left (λ s x, f s (g x)) l s.
Proof. revert s. induction l as [|x l IH]; intros s; simpl; [done|]. apply IH. Qed.

Lemma fold_left_pointwise {A S : Type} (f g : S → A → S) (l : list A) (s : S) :
  (∀ s x, f s x = g s x) → fold_left f l s = fold_left g l s.
Proof.
  intros Hfg. revert s. induction l as [|x l IH]; intros s; simpl; [done|].
  by rewrite Hfg, IH.
Qed.

Lemma data_size_total c0 :
  (∀ row bitmap, rows_of c0 !! row = Some (Some bitmap) →
                 BitmapValue.cardinality bitmap ≤ max) →
  bitmap_to_array_data_size max c0 = Ok (total_element_count c0 mod 2 ^ 64).
Proof.
  intros Hwithin.
  set (next := λ (data_size : Z) (row : nat),
         if negb (viewer_is_null c0 row)
         then (data_size + BitmapValue.cardinality (viewer_value c0 row)) mod 2 ^ 64
         else data_size).
  assert (Hloop : for_rows (size c0) next 0 = total_element_count c0 mod 2 ^ 64).
  { unfold for_rows, total_element_count. rewrite (rows_of_viewer c0).
    rewrite <- (Z.add_0_l (foldr _ _ _)), <- running_count by lia.
    rewrite fold_left_rows. apply fold_left_pointwise. intros ds row. unfold next.
    by destruct (viewer_is_null c0 row). }
  rewrite <- Hloop. unfold bitmap_to_array_data_size.
  destruct (has_null c0) eqn:Hhas.
  - apply (for_rows_ok _ next).
    intros s row Hrow. unfold next.
    destruct (viewer_is_null c0 row) eqn:Hnull; simpl; [done|].
    apply detect_within, (Hwithin row). rewrite viewer_row by done. by rewrite Hnull.
  - apply (for_rows_ok _ next).
    intros s row Hrow. unfold next. rewrite no_null_viewer by done. simpl.
    apply detect_within, (Hwithin row). rewrite viewer_row by done.
    by rewrite no_null_viewer.
Qed.
End BitmapToArray.

(** With every bitmap within the maximum both passes run to their end. *)
Lemma bitmap_to_array_returns (max : Z) (c0 : Column BitmapValue.t) :
  (∀ row bitmap, rows_of c0 !! row = Some (Some bitmap) →
                 BitmapValue.cardinality bitmap ≤ max) →
  ∃ out, BitmapFunctions.bitmap_to_array max c0 = Ok out.
Proof.
  intros Hwithin. unfold BitmapFunctions.bitmap_to_array.
  destruct (data_size_within max c0 Hwithin) as [data_size ->]. simpl.
  destruct (BitmapFunctions.bitmap_to_array_fill c0) as [[array_offsets data] offset].
  destruct (negb (has_null c0)), (only_null c0); by eexists.
Qed.

(** C3, as the code has it.  The guard of [bitmap_to_array] compares the
    cardinality of the row at hand with the configured maximum: the call
    throws the error naming the maximum as soon as one bitmap of the input
    has more members than the maximum.  When every bitmap of the input is
    within the maximum, the running count of the first pass ends as the
    total element count of the non-null rows, kept in a [size_t], and the
    call returns a column whenever that total fits the [int] the second pass
    counts the offsets in, above the maximum or not: the count is updated
    and never compared with the maximum. *)
Theorem bitmap_to_array_guard (max : Z) (c0 : Column BitmapValue.t) :
  ((∃ row bitmap, rows_of c0 !! row = Some (Some bitmap) ∧
                  max < BitmapValue.cardinality bitmap) →
   BitmapFunctions.bitmap_to_array max c0 =
   Throw ("bitmap_to_array not supported size > " +:+ pretty max)) ∧
  ((∀ row bitmap, rows_of c0 !! row = Some (Some bitmap) →
                  BitmapValue.cardinality bitmap ≤ max) →
   BitmapFunctions.bitmap_to_array_data_size max c0
     = Ok (total_element_count c0 mod 2 ^ 64) ∧
   (total_element_count c0 < 2 ^ 31 →
    ∃ out, BitmapFunctions.bitmap_to_array max c0 = Ok out)).
Proof.
  split.
  - intros (row & bitmap & Hrow & Hover). unfold BitmapFunctions.bitmap_to_array.
    rewrite (data_size_over max c0 row bitmap) by done. reflexivity.
  - intros Hwithin. split; [by apply data_size_total|].
    intros _. by apply bitmap_to_array_returns.
Qed.

(** C3, as the claim states it, fails: two rows of two members each hold four
    elements in all, above a maximum of three; the running count ends at four
    and the call returns the array column of the four elements. *)
Lemma bitmap_to_array_total_above_maximum :
  let c0 := DataColumn [({[ 1%N; 2%N ]} : gset N); {[ 3%N; 4%N ]}] in
  total_element_count c0 = 4 ∧ 3 < total_element_count c0 ∧
  BitmapFunctions.bitmap_to_array_data_size 3 c0 = Ok 4 ∧
  BitmapFunctions.bitmap_to_array 3 c0 =
  Ok (ArrayCol (mkArray
        (NullableElements [(false, 1); (false, 2); (false, 3); (false, 4)])
        [0; 2; 4])).
Proof. vm_compute. split; [reflexivity|]. split; [reflexivity|]. split; reflexivity. Qed.

(** ** sub_bitmap *)

Section SubBitmap.
Import BitmapFunctions.

Lemma view_row {T} `{!DefaultValue T} (c : Column T) row r :
  rows_of c !! row = Some r → (row < size c)%nat ∧ view c row = r.
Proof.
  intros Hrow. assert (Hlt : (row < size c)%nat).
  { rewrite <- size_rows_of. by eapply lookup_lt_Some. }
  rewrite viewer_row in Hrow by done. unfold view. naive_solver.
Qed.

Lemma view_const {T} `{!DefaultValue T} (c : Column T) row :
  is_constant c = true → view c row = view c 0.
Proof.
  intros Hc. unfold view.
  by rewrite (viewer_const_is_null c row), (viewer_const_value c row).
Qed.

Lemma view_only_null {T} `{!DefaultValue T} (c : Column T) row :
  only_null c = true → view c row = None.
Proof. by destruct c. Qed.

Lemma sub_bitmap_body c0 c1 (len_column : Column Z) (b : ColumnBuilder BitmapValue.t) row :
  (if viewer_is_null c0 row || viewer_is_null c1 row ||
      viewer_is_null len_column row || (viewer_value len_column row <=? 0)
   then append_null b
   else
     if (BitmapValue.cardinality (viewer_value c0 row) =? 0) ||
        (viewer_value c1 row =? INT_MIN) || (viewer_value len_column row <=? 0)
     then append_null b
     else
       let '(found, ret_bitmap) :=
         BitmapValue.sub_bitmap_internal (viewer_value c0 row) (viewer_value c1 row)
           (viewer_value len_column row) in
       if found =? 0 then append_null b else append b ret_bitmap) =
  append_row b (sub_bitmap_cell (view c0 row) (view c1 row) (view len_column row)).
Proof.
  unfold sub_bitmap_cell, view.
  destruct (viewer_is_null c0 row), (viewer_is_null c1 row),
    (viewer_is_null len_column row); simpl; try done.
  destruct (viewer_value len_column row <=? 0); simpl; [done|].
  rewrite orb_false_r.
  destruct ((BitmapValue.cardinality (viewer_value c0 row) =? 0) ||
            (viewer_value c1 row =? INT_MIN)); simpl; [done|].
  destruct (BitmapValue.sub_bitmap_internal _ _ _) as [found ret].
  by destruct (found =? 0).
Qed.

(** Row by row, [sub_bitmap] computes [sub_bitmap_cell]. *)
Lemma sub_bitmap_row c0 c1 c2 row bitmap offset len :
  rows_of c0 !! row = Some bitmap →
  rows_of c1 !! row = Some offset →
  rows_of (sub_bitmap_len_column c0 c2) !! row = Some len →
  rows_of (sub_bitmap c0 c1 c2) !! row = Some (sub_bitmap_cell bitmap offset len).
Proof.
  intros [Hlt <-]%view_row [_ <-]%view_row [_ <-]%view_row.
  unfold sub_bitmap. fold (sub_bitmap_len_column c0 c2).
  destruct (any_only_null _) eqn:Hany.
  - unfold create_const_null_column. simpl. rewrite lookup_replicate_2 by done.
    f_equal. unfold any_only_null in Hany. simpl in Hany.
    destruct (only_null c0) eqn:H0; [by rewrite (view_only_null c0)|].
    destruct (only_null c1) eqn:H1;
      [rewrite (view_only_null c1) by done; by destruct (view c0 row)|].
    destruct c2 as [c2|]; simpl in Hany; [|done].
    rewrite orb_false_r in Hany. simpl.
    rewrite (view_only_null c2) by done.
    by destruct (view c0 row), (view c1 row).
  - rewrite (rows_of_for_rows
               (λ row, sub_bitmap_cell (view c0 row) (view c1 row)
                         (view (sub_bitmap_len_column c0 c2) row))).
    + by rewrite lookup_row_seq.
    + intros b r. apply sub_bitmap_body.
    + intros Hc r.
      assert (is_constant c0 = true ∧ is_constant c1 = true ∧
              is_constant (sub_bitmap_len_column c0 c2) = true) as (H0 & H1 & H2).
      { destruct c2 as [c2|]; simpl in *;
          destruct (is_constant c0), (is_constant c1); try done.
        rewrite andb_true_r in Hc. done. }
      by rewrite (view_const c0 r), (view_const c1 r), (view_const _ r).
Qed.

(** An offset whose start position lies in the bitmap, at most [max] before
    the end, is not the lowest integer. *)
Lemma start_above_minimum (cardinality o lowest highest : Z) :
  lowest < 0 → highest = - lowest - 1 →
  let start := if o <? 0 then cardinality + o else o in
  0 ≤ start < cardinality → cardinality - start ≤ highest → o ≠ lowest.
Proof.
  intros Hlow Hhigh start Hstart Hend ->. subst start.
  destruct (Z.ltb_spec lowest 0); lia.
Qed.

(** A range that reaches the end of the bitmap: the extraction returns the
    members from the start position on. *)
Lemma sub_bitmap_internal_to_end (b : BitmapValue.t) (o len : Z) :
  let start := if o <? 0 then BitmapValue.cardinality b + o else o in
  0 ≤ start < BitmapValue.cardinality b →
  BitmapValue.cardinality b - start ≤ len →
  BitmapValue.sub_bitmap_internal b o len =
  (BitmapValue.cardinality b - start,
   list_to_set (drop (Z.to_nat start) (BitmapValue.members b))).
Proof.
  intros start Hstart Hend. unfold BitmapValue.sub_bitmap_internal.
  pose proof (members_length b) as Hm. cbv zeta. rewrite Hm. fold start.
  destruct (Z.ltb_spec start 0) as [|_]; [lia|].
  destruct (Z.leb_spec (BitmapValue.cardinality b) start) as [|_]; [lia|].
  destruct (Z.leb_spec len 0) as [|_]; [lia|].
  cbn [orb]. rewrite take_ge by (rewrite length_drop; lia).
  rewrite length_drop. f_equal. lia.
Qed.
End SubBitmap.

(** C4. A row of [sub_bitmap] is null whenever its bitmap, its offset or its
    length is null, the length is not positive, the offset is [INT_MIN], the
    bitmap is empty, or the range extraction finds no member; every other row
    is the bitmap the range extraction returns.  A call without the length
    column is the call with the constant length [INT32_MAX], and its row is
    the members of the bitmap from the position of the offset to the end.
    On the bitmap {1,2,3,4,5}, offset 1 and length 2 give {2,3}, offset -2
    and length 2 give {4,5}. *)
Theorem sub_bitmap_degenerate_rows :
  (∀ c0 c1 c2 row bitmap offset len,
     rows_of c0 !! row = Some bitmap →
     rows_of c1 !! row = Some offset →
     rows_of (sub_bitmap_len_column c0 c2) !! row = Some len →
     (bitmap = None ∨ offset = None ∨ len = None ∨
      (∃ l, len = Some l ∧ l ≤ 0) ∨
      offset = Some INT_MIN ∨
      (∃ b, bitmap = Some b ∧ BitmapValue.cardinality b = 0) ∨
      (∃ b o l, bitmap = Some b ∧ offset = Some o ∧ len = Some l ∧
                (BitmapValue.sub_bitmap_internal b o l).1 = 0)) →
     rows_of (BitmapFunctions.sub_bitmap c0 c1 c2) !! row = Some None) ∧
  (∀ c0 c1 c2 row b o l,
     rows_of c0 !! row = Some (Some b) →
     rows_of c1 !! row = Some (Some o) →
     rows_of (sub_bitmap_len_column c0 c2) !! row = Some (Some l) →
     0 < l → o ≠ INT_MIN → BitmapValue.cardinality b ≠ 0 →
     (BitmapValue.sub_bitmap_internal b o l).1 ≠ 0 →
     rows_of (BitmapFunctions.sub_bitmap c0 c1 c2) !! row
     = Some (Some (BitmapValue.sub_bitmap_internal b o l).2)) ∧
  (∀ c0 c1,
     BitmapFunctions.sub_bitmap c0 c1 None =
     BitmapFunctions.sub_bitmap c0 c1 (Some (ConstColumn INT32_MAX (size c0)))) ∧
  (∀ c0 c1 row b o,
     rows_of c0 !! row = Some (Some b) →
     rows_of c1 !! row = Some (Some o) →
     let start := if o <? 0 then BitmapValue.cardinality b + o else o in
     0 ≤ start < BitmapValue.cardinality b →
     BitmapValue.cardinality b - start ≤ INT32_MAX →
     rows_of (BitmapFunctions.sub_bitmap c0 c1 None) !! row
     = Some (Some (list_to_set (drop (Z.to_nat start) (BitmapValue.members b))))) ∧
  rows_of (BitmapFunctions.sub_bitmap
             (DataColumn [({[ 1%N; 2%N; 3%N; 4%N; 5%N ]} : gset N)])
             (DataColumn [1]) (Some (DataColumn [2])))
    = [Some {[ 2%N; 3%N ]}] ∧
  rows_of (BitmapFunctions.sub_bitmap
             (DataColumn [({[ 1%N; 2%N; 3%N; 4%N; 5%N ]} : gset N)])
             (DataColumn [-2]) (Some (DataColumn [2])))
    = [Some {[ 4%N; 5%N ]}].
Proof.
  split; [|split; [|split; [|split; [|split]]]].
  - intros c0 c1 c2 row bitmap offset len H0 H1 H2 Hcase.
    rewrite (sub_bitmap_row c0 c1 c2 row bitmap offset len) by done.
    f_equal. unfold sub_bitmap_cell.
    destruct Hcase as [->|[->|[->|[(l & -> & Hl)|[->|[(b & -> & Hb)|Hfound]]]]]].
    + done.
    + by destruct bitmap.
    + by destruct bitmap, offset.
    + destruct bitmap, offset; try done. by rewrite (proj2 (Z.leb_le _ _) Hl).
    + destruct bitmap, len as [l|]; try done. destruct (l <=? 0); [done|].
      by rewrite Z.eqb_refl, orb_true_r.
    + destruct offset, len as [l|]; try done. destruct (l <=? 0); [done|].
      by rewrite Hb.
    + destruct Hfound as (b & o & l & -> & -> & -> & Hfound).
      destruct (l <=? 0); [done|]. case_match; [done|].
      destruct (BitmapValue.sub_bitmap_internal b o l) as [found ret].
      simpl in Hfound. by rewrite Hfound.
  - intros c0 c1 c2 row b o l H0 H1 H2 Hl Ho Hb Hfound.
    rewrite (sub_bitmap_row c0 c1 c2 row _ _ _ H0 H1 H2).
    f_equal. unfold sub_bitmap_cell.
    destruct (Z.leb_spec l 0) as [|_]; [lia|].
    destruct (Z.eqb_spec (BitmapValue.cardinality b) 0) as [|_]; [done|].
    destruct (Z.eqb_spec o INT_MIN) as [|_]; [done|]. simpl.
    destruct (BitmapValue.sub_bitmap_internal b o l) as [found ret].
    simpl in *. by destruct (Z.eqb_spec found 0).
  - intros c0 c1. unfold BitmapFunctions.sub_bitmap. simpl.
    by rewrite !orb_false_r, !andb_true_r.
  - intros c0 c1 row b o H0 H1 start Hstart Hend.
    assert (Hlen : rows_of (sub_bitmap_len_column c0 None) !! row = Some (Some INT32_MAX)).
    { simpl. apply lookup_replicate_2. apply lookup_lt_Some in H0.
      by rewrite size_rows_of in H0. }
    rewrite (sub_bitmap_row c0 c1 None row _ _ _ H0 H1 Hlen).
    f_equal. unfold sub_bitmap_cell.
    rewrite (sub_bitmap_internal_to_end b o INT32_MAX) by done. fold start.
    destruct (Z.leb_spec INT32_MAX 0) as [Hmax|_]; [done|].
    destruct (Z.eqb_spec (BitmapValue.cardinality b) 0) as [|_]; [lia|].
    destruct (Z.eqb_spec o INT_MIN) as [Ho|_].
    { exfalso. revert Ho.
      by apply (start_above_minimum (BitmapValue.cardinality b) o INT_MIN INT32_MAX). }
    cbn [orb].
    destruct (Z.eqb_spec (BitmapValue.cardinality b - start) 0) as [|_]; [lia|done].
  - vm_compute. reflexivity.
  - vm_compute. reflexivity.
Qed.

(** ** Loops over two columns *)

Section BinaryLoops.
Context {A B R : Type} `{!DefaultValue A, !DefaultValue B, !DefaultValue R}.

(** The shape shared by the binary functions: the short-circuit on a
    constant null input, then one output row per row of the first column. *)
Lemma strict_binary_row (g : A → B → R) body (c0 : Column A) (c1 : Column B) row a b :
  (∀ (bl : ColumnBuilder R) r,
      body bl r = append_row bl (strict_cell g (view c0 r) (view c1 r))) →
  rows_of c0 !! row = Some a →
  rows_of c1 !! row = Some b →
  rows_of (if any_only_null [only_null c0; only_null c1]
           then create_const_null_column (size c0)
           else build (for_rows (size c0) body builder_new)
                      (is_constant c0 && is_constant c1)) !! row
  = Some (strict_cell g a b).
Proof.
  intros Hbody [Hlt <-]%view_row [_ <-]%view_row.
  destruct (any_only_null _) eqn:Hany.
  - unfold create_const_null_column. simpl. rewrite lookup_replicate_2 by done.
    f_equal. unfold any_only_null in Hany. simpl in Hany.
    destruct (only_null c0) eqn:H0; [by rewrite (view_only_null c0)|].
    destruct (only_null c1) eqn:H1; [|done].
    rewrite (view_only_null c1) by done. by destruct (view c0 row).
  - rewrite (rows_of_for_rows (λ r, strict_cell g (view c0 r) (view c1 r))).
    + by rewrite lookup_row_seq.
    + done.
    + intros [H0 H1]%andb_true_iff r.
      by rewrite (view_const c0 r), (view_const c1 r).
Qed.

End BinaryLoops.

(** ** Loops over one column *)

Section UnaryLoops.
Context {A R : Type} `{!DefaultValue A, !DefaultValue R}.

Lemma rows_of_view (c : Column A) : rows_of c = view c <$> seq 0 (size c).
Proof. apply rows_of_viewer. Qed.

Lemma unary_rows (cell : option A → option R) body (c0 : Column A) :
  (∀ (bl : ColumnBuilder R) r, body bl r = append_row bl (cell (view c0 r))) →
  rows_of (build (for_rows (size c0) body builder_new) (is_constant c0))
  = cell <$> rows_of c0.
Proof.
  intros Hbody. rewrite (rows_of_for_rows (λ r, cell (view c0 r))).
  - by rewrite (rows_of_view c0), <- list_fmap_compose.
  - done.
  - intros Hc r. by rewrite (view_const c0 r).
Qed.
End UnaryLoops.

(** ** The set-algebra family *)

Section SetAlgebra.
Import BitmapFunctions.

Lemma binary_rows_row op c0 c1 row a b :
  rows_of c0 !! row = Some a →
  rows_of c1 !! row = Some b →
  rows_of (binary_rows op c0 c1) !! row =
  Some (strict_cell (λ x y, op (BitmapValue.union_with BitmapValue.empty x) y) a b).
Proof.
  intros H0 H1. unfold binary_rows. apply strict_binary_row; [|done..].
  intros bl r. unfold strict_cell, view.
  by destruct (viewer_is_null c0 r), (viewer_is_null c1 r).
Qed.

Lemma strict_function_row {A B R} `{!DefaultValue A, !DefaultValue B, !DefaultValue R}
    (impl : A → B → R) (c0 : Column A) (c1 : Column B) row a b :
  rows_of c0 !! row = Some a →
  rows_of c1 !! row = Some b →
  rows_of (VectorizedStrictBinaryFunction impl c0 c1) !! row =
  Some (strict_cell impl a b).
Proof.
  intros H0 H1. unfold VectorizedStrictBinaryFunction.
  apply strict_binary_row; [|done..].
  intros bl r. unfold strict_cell, view.
  by destruct (viewer_is_null c0 r), (viewer_is_null c1 r).
Qed.

Lemma bitmap_count_rows c0 :
  rows_of (bitmap_count c0) =
  (λ r, Some (from_option BitmapValue.cardinality 0 r)) <$> rows_of c0.
Proof.
  unfold bitmap_count. apply unary_rows. intros bl r. unfold view.
  by destruct (viewer_is_null c0 r).
Qed.

Lemma bitmap_hash_rows hash c0 :
  rows_of (bitmap_hash hash c0) =
  (λ r, Some (from_option (λ s, BitmapValue.add BitmapValue.empty (hash s))
                          BitmapValue.empty r)) <$> rows_of c0.
Proof.
  unfold bitmap_hash. apply unary_rows. intros bl r. unfold view.
  by destruct (viewer_is_null c0 r).
Qed.

Lemma union_with_empty (x : BitmapValue.t) :
  BitmapValue.union_with BitmapValue.empty x = x.
Proof. unfold BitmapValue.union_with, BitmapValue.empty. apply (left_id_L ∅ (∪)). Qed.

Lemma cardinality_nonneg (x : BitmapValue.t) : 0 ≤ BitmapValue.cardinality x.
Proof. unfold BitmapValue.cardinality. lia. Qed.

Lemma cardinality_mono (x y : BitmapValue.t) :
  x ⊆ y → BitmapValue.cardinality x ≤ BitmapValue.cardinality y.
Proof.
  intros Hsub. unfold BitmapValue.cardinality.
  apply inj_le. by apply subseteq_size.
Qed.
End SetAlgebra.

(** C5. A null row of the first input of [bitmap_or] gives a null output row
    whatever the second input holds; a null row of the input of
    [bitmap_count] gives the integer 0; a null row of the input of
    [bitmap_hash] gives a bitmap of cardinality 0; and no output row of
    [bitmap_count] or of [bitmap_hash] is null. *)
Theorem null_rows_of_or_count_hash :
  (∀ c0 c1 row b,
     rows_of c0 !! row = Some None → rows_of c1 !! row = Some b →
     rows_of (BitmapFunctions.bitmap_or c0 c1) !! row = Some None) ∧
  (∀ c0 row,
     rows_of c0 !! row = Some None →
     rows_of (BitmapFunctions.bitmap_count c0) !! row = Some (Some 0)) ∧
  (∀ hash c0 row,
     rows_of c0 !! row = Some None →
     ∃ bitmap, rows_of (BitmapFunctions.bitmap_hash hash c0) !! row = Some (Some bitmap) ∧
               BitmapValue.cardinality bitmap = 0) ∧
  (∀ c0 row, rows_of (BitmapFunctions.bitmap_count c0) !! row ≠ Some None) ∧
  (∀ hash c0 row, rows_of (BitmapFunctions.bitmap_hash hash c0) !! row ≠ Some None).
Proof.
  split; [|split; [|split; [|split]]].
  - intros c0 c1 row b H0 H1. unfold BitmapFunctions.bitmap_or.
    by rewrite (binary_rows_row _ c0 c1 row None b).
  - intros c0 row H0. by rewrite bitmap_count_rows, list_lookup_fmap, H0.
  - intros hash c0 row H0. rewrite bitmap_hash_rows, list_lookup_fmap, H0. simpl.
    eexists. split; [done|]. unfold BitmapValue.cardinality, BitmapValue.empty.
    by rewrite size_empty.
  - intros c0 row. rewrite bitmap_count_rows, list_lookup_fmap.
    by destruct (rows_of c0 !! row).
  - intros hash c0 row. rewrite bitmap_hash_rows, list_lookup_fmap.
    by destruct (rows_of c0 !! row).
Qed.

(** C7. On a row where both inputs hold a bitmap, [bitmap_has_any] answers
    true exactly when [bitmap_count] of [bitmap_and] of the two inputs is
    greater than 0. *)
Theorem bitmap_has_any_is_count_of_and (c0 c1 : Column BitmapValue.t) (row : nat)
    (a b : BitmapValue.t) :
  rows_of c0 !! row = Some (Some a) →
  rows_of c1 !! row = Some (Some b) →
  ∃ (any : bool) (count : Z),
    rows_of (BitmapFunctions.bitmap_has_any c0 c1) !! row = Some (Some any) ∧
    rows_of (BitmapFunctions.bitmap_count (BitmapFunctions.bitmap_and c0 c1)) !! row
      = Some (Some count) ∧
    any = (0 <? count).
Proof.
  intros H0 H1. eexists _, _. split; [|split].
  - unfold BitmapFunctions.bitmap_has_any.
    rewrite (strict_function_row _ c0 c1 row (Some a) (Some b)) by done. reflexivity.
  - rewrite bitmap_count_rows, list_lookup_fmap. unfold BitmapFunctions.bitmap_and.
    rewrite (binary_rows_row _ c0 c1 row (Some a) (Some b)) by done. reflexivity.
  - simpl. unfold BitmapFunctions.bitmapHasAny.
    pose proof (cardinality_nonneg
      (BitmapValue.intersect_with (BitmapValue.union_with BitmapValue.empty a) b)) as Hge.
    destruct (Z.eqb_spec (BitmapValue.cardinality
      (BitmapValue.intersect_with (BitmapValue.union_with BitmapValue.empty a) b)) 0)
      as [Heq|Hne]; simpl; symmetry.
    + rewrite Heq. done.
    + apply Z.ltb_lt. lia.
Qed.

(** C9. On a row where both inputs hold a bitmap, the bitmap of [bitmap_and]
    has at most as many members as the smaller input, and the bitmap of
    [bitmap_or] at least as many as the larger one. *)
Theorem bitmap_and_or_cardinality (c0 c1 : Column BitmapValue.t) (row : nat)
    (a b : BitmapValue.t) :
  rows_of c0 !! row = Some (Some a) →
  rows_of c1 !! row = Some (Some b) →
  (∃ r, rows_of (BitmapFunctions.bitmap_and c0 c1) !! row = Some (Some r) ∧
        BitmapValue.cardinality r
        ≤ Z.min (BitmapValue.cardinality a) (BitmapValue.cardinality b)) ∧
  (∃ r, rows_of (BitmapFunctions.bitmap_or c0 c1) !! row = Some (Some r) ∧
        Z.max (BitmapValue.cardinality a) (BitmapValue.cardinality b)
        ≤ BitmapValue.cardinality r).
Proof.
  intros H0 H1. split.
  - eexists. split.
    + unfold BitmapFunctions.bitmap_and.
      rewrite (binary_rows_row _ c0 c1 row (Some a) (Some b)) by done. reflexivity.
    + rewrite union_with_empty. unfold BitmapValue.intersect_with.
      apply Z.min_glb; apply cardinality_mono;
      [apply intersection_subseteq_l|apply intersection_subseteq_r].
  - eexists. split.
    + unfold BitmapFunctions.bitmap_or.
      rewrite (binary_rows_row _ c0 c1 row (Some a) (Some b)) by done. reflexivity.
    + rewrite union_with_empty. unfold BitmapValue.union_with.
      apply Z.max_lub; apply cardinality_mono;
      [apply union_subseteq_l|apply union_subseteq_r].
Qed.

(** ** base64_to_bitmap *)

Section Base64.
Import BitmapFunctions.
Variable decode : string → Z * list Ascii.ascii.
Variable alloc : Z → list Ascii.ascii.
Variable deser : BitmapValue.t → list Ascii.ascii → bool * BitmapValue.t.

(** Every row of the output is null exactly when [base64_null_input] says
    so for the input row: the outcome of [deserialize] has no part in it. *)
Lemma base64_to_bitmap_row c0 row input :
  rows_of c0 !! row = Some input →
  ∃ r, rows_of (base64_to_bitmap decode alloc deser c0) !! row = Some r ∧
       (r = None ↔ base64_null_input decode input = true).
Proof.
  intros [Hlt <-]%view_row. unfold base64_to_bitmap.
  match goal with
  | |- context [for_rows ?n ?body ?s0] =>
      destruct (builder_loop_rows (λ s, s.1.1) body
                  (λ i r, r = None ↔ base64_null_input decode (view c0 i) = true)
                  n s0) as (rs & Hrs & Hlen & HQ); [|done|]
  end.
  - intros [[b p] last] r. unfold view, base64_null_input. simpl.
    destruct (viewer_is_null c0 r); [by exists None|].
    destruct (Z.of_nat (String.length (viewer_value c0 r)) =? 0); [by exists None|].
    destruct (last <? _); destruct (decode (viewer_value c0 r)) as [res written]; simpl;
      (destruct (res <? 0); [by exists None|]);
      destruct (deser BitmapValue.empty _) as [ok bitmap]; by exists (Some bitmap).
  - destruct (for_rows _ _ _) as [[b p] last]. simpl in Hrs. subst b.
    destruct (lookup_lt_is_Some_2 rs row) as [r Hr]; [lia|].
    destruct (build_row_null rs (is_constant c0) row r Hr) as (r'' & Hrow & Hnull).
    + intros Hc j r' Hj. rewrite (HQ j r' Hj), (HQ row r Hr).
      by rewrite (view_const c0 j), (view_const c0 row).
    + exists r''. split; [done|]. by rewrite Hnull, (HQ row r Hr).
Qed.
End Base64.

(** C6, as the code has it.  A row of [base64_to_bitmap] is null when the
    input row is null, when its text is empty and when the decoding is
    refused; every other row holds a bitmap, whatever [deserialize] reports
    about the decoded bytes. *)
Theorem base64_to_bitmap_rows (decode : string → Z * list Ascii.ascii)
    (alloc : Z → list Ascii.ascii)
    (deser : BitmapValue.t → list Ascii.ascii → bool * BitmapValue.t)
    (c0 : Column string) (row : nat) (input : option string) :
  rows_of c0 !! row = Some input →
  let out := BitmapFunctions.base64_to_bitmap decode alloc deser c0 in
  (input = None → rows_of out !! row = Some None) ∧
  (input = Some EmptyString → rows_of out !! row = Some None) ∧
  (∀ text, input = Some text → (decode text).1 < 0 → rows_of out !! row = Some None) ∧
  (∀ text, input = Some text → text ≠ EmptyString → 0 ≤ (decode text).1 →
     ∃ bitmap, rows_of out !! row = Some (Some bitmap)).
Proof.
  intros Hrow out.
  destruct (base64_to_bitmap_row decode alloc deser c0 row input Hrow)
    as (r & Hr & Hnull).
  fold out in Hr. rewrite Hr. repeat split.
  - intros ->. f_equal. by apply Hnull.
  - intros ->. f_equal. by apply Hnull.
  - intros text -> Hneg. f_equal. apply Hnull. simpl.
    rewrite (proj2 (Z.ltb_lt _ _) Hneg). by rewrite orb_true_r.
  - intros text -> Hne Hpos. destruct r as [bitmap|]; [by exists bitmap|].
    exfalso. destruct Hnull as [Hnull _]. specialize (Hnull eq_refl). simpl in Hnull.
    apply orb_true_iff in Hnull as [Hlen%Z.eqb_eq|Hneg%Z.ltb_lt]; [|lia].
    destruct text; [done|simpl in Hlen; lia].
Qed.

(** ** array_to_bitmap *)

Section ArrayToBitmap.
Import BitmapFunctions.

(** The members the inner loop adds over the positions [l]. *)
Lemma fill_bitmap_members (enull : option (list bool)) (econt : list Z) l
    (b0 : BitmapValue.t) (v : N) :
  v ∈ fold_left (λ bitmap j,
        if flag_at enull j then bitmap
        else if 0 <=? at_index econt j
             then BitmapValue.add bitmap (to_uint64 (at_index econt j))
             else bitmap) l b0
  ↔ v ∈ b0 ∨ ∃ j, j ∈ l ∧ flag_at enull j = false ∧ 0 ≤ at_index econt j ∧
                  v = to_uint64 (at_index econt j).
Proof.
  revert b0. induction l as [|j l IH]; intros b0; simpl.
  - split; [by left|]. intros [?|(j & []%elem_of_nil & _)]. done.
  - rewrite IH. clear IH. split.
    + intros [Hv|(k & Hk & Hrest)].
      * destruct (flag_at enull j) eqn:Hfl; [by left|].
        destruct (Z.leb_spec 0 (at_index econt j)); [|by left].
        unfold BitmapValue.add in Hv. apply elem_of_union in Hv as [Hv|Hv]; [by left|].
        apply elem_of_singleton in Hv. right. exists j. split; [left|done].
      * right. exists k. split; [by right|done].
    + intros [Hv|(k & Hk & Hfl & Hge & ->)].
      * left. destruct (flag_at enull j); [done|].
        destruct (0 <=? at_index econt j); [|done].
        unfold BitmapValue.add. set_solver.
      * apply elem_of_cons in Hk as [->|Hk].
        -- left. rewrite Hfl, (proj2 (Z.leb_le _ _) Hge).
           unfold BitmapValue.add. set_solver.
        -- right. exists k. done.
Qed.

Lemma element_view (e : ElementsColumn) j :
  (j < length (element_data e))%nat →
  element_rows e !! j =
  Some (if flag_at (element_nulls e) j then None
        else Some (at_index (element_data e) j)).
Proof.
  destruct e as [d|cs]; simpl; intros Hj; unfold at_index.
  - rewrite list_lookup_fmap. destruct (lookup_lt_is_Some_2 d j Hj) as [x ->]. done.
  - rewrite length_fmap in Hj. rewrite !list_lookup_fmap.
    destruct (lookup_lt_is_Some_2 cs j Hj) as [[fl x] ->]. simpl.
    unfold cell_row. simpl. by destruct fl.
Qed.

Lemma to_uint64_nonneg e : 0 ≤ e < 2 ^ 63 → Z.of_N (to_uint64 e) = e.
Proof.
  intros He. unfold to_uint64. rewrite Z.mod_small by lia. lia.
Qed.

(** Below 2^31 the [int] index of the inner loop is the position itself. *)
Lemma int_index_small (u : nat) :
  Z.of_nat u < 2 ^ 31 → to_int32 (Z.of_nat u) = Z.of_nat u.
Proof. intros Hu. unfold to_int32. rewrite Z.mod_small by lia. lia. Qed.

Lemma at_int_nat {T} `{!DefaultValue T} (l : list T) (u : nat) :
  at_int l (Z.of_nat u) = at_index l u.
Proof.
  unfold at_int. destruct (Z.ltb_spec (Z.of_nat u) 0); [lia|]. by rewrite Nat2Z.id.
Qed.

Lemma int_loop_positions (enull : option (list bool)) (econt : list Z) l
    (b0 : BitmapValue.t) :
  (∀ u, u ∈ l → Z.of_nat u < 2 ^ 31) →
  fold_left (λ bitmap u,
      let j := to_int32 (Z.of_nat u) in
      if flag_at_int enull j then bitmap
      else if 0 <=? at_int econt j
           then BitmapValue.add bitmap (to_uint64 (at_int econt j))
           else bitmap) l b0
  = fold_left (λ bitmap j,
      if flag_at enull j then bitmap
      else if 0 <=? at_index econt j
           then BitmapValue.add bitmap (to_uint64 (at_index econt j))
           else bitmap) l b0.
Proof.
  revert b0. induction l as [|u l IH]; intros b0 Hl; [done|].
  cbn [fold_left]. cbv zeta.
  rewrite int_index_small by (apply Hl; left).
  rewrite at_int_nat.
  replace (flag_at_int enull (Z.of_nat u)) with (flag_at enull u)
    by (destruct enull; simpl; by rewrite ?at_int_nat).
  apply IH. intros u' Hu'. apply Hl. by right.
Qed.

Lemma array_to_bitmap_rows c0 :
  array_only_null c0 = false →
  rows_of (array_to_bitmap c0) =
  (λ row,
     let a := get_data_column c0 in
     let offset := at_index (offsets_column a) row in
     let length := (at_index (offsets_column a) (row + 1) - offset) mod 2 ^ 32 in
     if flag_at (array_null_data c0) row then None
     else Some (fold_left (λ bitmap u,
            let j := to_int32 (Z.of_nat u) in
            if flag_at_int (element_nulls (elements_column a)) j then bitmap
            else if 0 <=? at_int (element_data (elements_column a)) j
                 then BitmapValue.add bitmap
                        (to_uint64 (at_int (element_data (elements_column a)) j))
                 else bitmap)
            (seq (Z.to_nat offset) (Z.to_nat ((offset + length) mod 2 ^ 32 - offset)))
            BitmapValue.empty)) <$> seq 0 (size c0).
Proof.
  intros Hnn. unfold array_to_bitmap, any_only_null. simpl. rewrite Hnn. simpl.
  apply rows_of_for_rows.
  - intros b row. by destruct (flag_at (array_null_data c0) row).
  - destruct c0; done.
Qed.
End ArrayToBitmap.

(** C8. A non-null, well-formed row of the input of [array_to_bitmap] gives
    the bitmap whose members are exactly the non-null, non-negative elements
    of the array of that row; a null row gives a null row; the array
    [1, -1, null, 2] gives {1,2}. *)
Theorem array_to_bitmap_members :
  (∀ c0 row,
     array_only_null c0 = false →
     flag_at (array_null_data c0) row = false →
     array_row_wf (get_data_column c0) row →
     elements_int64 (get_data_column c0) →
     ∃ bitmap,
       rows_of (BitmapFunctions.array_to_bitmap c0) !! row = Some (Some bitmap) ∧
       ∀ v : N, v ∈ bitmap ↔
         ∃ e, Some e ∈ array_row_elements (get_data_column c0) row ∧
              0 ≤ e ∧ Z.of_N v = e) ∧
  (∀ c0 row,
     (row < size c0)%nat →
     (array_only_null c0 = true ∨ flag_at (array_null_data c0) row = true) →
     rows_of (BitmapFunctions.array_to_bitmap c0) !! row = Some None) ∧
  rows_of (BitmapFunctions.array_to_bitmap
             (ArrayCol (mkArray
                (NullableElements [(false, 1); (false, -1); (true, 0); (false, 2)])
                [0; 4])))
    = [Some {[ 1%N; 2%N ]}].
Proof.
  split; [|split].
  - intros c0 row Hnn Hfl (o0 & o1 & Ho0 & Ho1 & Hord & H32 & Hlen) Hint.
    assert (Hrow : (row < size c0)%nat).
    { apply lookup_lt_Some in Ho1.
      destruct c0; simpl in *; unfold size, array_size, array_rows; simpl; try done; lia. }
    rewrite array_to_bitmap_rows by done. rewrite lookup_row_seq by done.
    cbv zeta. rewrite Hfl.
    assert (Hoff0 : at_index (offsets_column (get_data_column c0)) row = o0)
      by (unfold at_index; by rewrite Ho0).
    assert (Hoff1 : at_index (offsets_column (get_data_column c0)) (row + 1) = o1)
      by (unfold at_index; by rewrite Ho1).
    rewrite Hoff0, Hoff1.
    replace ((o0 + (o1 - o0) mod 2 ^ 32) mod 2 ^ 32 - o0) with (o1 - o0)
      by (rewrite (Z.mod_small (o1 - o0)), (Z.mod_small (o0 + (o1 - o0))) by lia; lia).
    rewrite int_loop_positions by (intros u Hu%elem_of_seq; lia).
    eexists. split; [reflexivity|].
    intros v. rewrite fill_bitmap_members. unfold array_row_elements, at_index.
    rewrite Ho0, Ho1. simpl.
    set (a := get_data_column c0) in *. split.
    + intros [Hv|(j & Hj & Hjfl & Hge & ->)]; [by apply not_elem_of_empty in Hv|].
      apply elem_of_seq in Hj.
      exists (default 0 (element_data (elements_column a) !! j)).
      assert (Hjlen : (j < length (element_data (elements_column a)))%nat) by lia.
      split; [|split; [done|]].
      * apply list_elem_of_lookup. exists (j - Z.to_nat o0)%nat.
        rewrite lookup_take_lt by lia. rewrite lookup_drop.
        replace (Z.to_nat o0 + (j - Z.to_nat o0))%nat with j by lia.
        rewrite element_view by done. by rewrite Hjfl.
      * apply to_uint64_nonneg. split; [done|].
        destruct (lookup_lt_is_Some_2 _ j Hjlen) as [x Hx].
        unfold at_index in Hge. rewrite Hx in *. simpl in *.
        unfold elements_int64 in Hint. rewrite Forall_lookup in Hint.
        by destruct (Hint j x Hx).
    + intros (e & Hin & Hge & Hv). right.
      apply list_elem_of_lookup in Hin as [i Hi].
      apply lookup_take_Some in Hi as [Hi Hilt]. rewrite lookup_drop in Hi.
      assert (Hjlen : (Z.to_nat o0 + i < length (element_data (elements_column a)))%nat)
        by lia.
      rewrite element_view in Hi by done.
      exists (Z.to_nat o0 + i)%nat. split; [apply elem_of_seq; lia|].
      destruct (flag_at (element_nulls (elements_column a)) (Z.to_nat o0 + i)); [done|].
      injection Hi as Hi.
      destruct (lookup_lt_is_Some_2 _ _ Hjlen) as [x Hx].
      unfold at_index in Hi. rewrite Hx in *. simpl in Hi. subst x. simpl.
      split; [done|]. split; [done|].
      unfold elements_int64 in Hint. rewrite Forall_lookup in Hint.
      destruct (Hint _ e Hx). apply (inj Z.of_N). rewrite to_uint64_nonneg by lia. done.
  - intros c0 row Hrow [Hon|Hfl].
    + destruct c0; try done. unfold size, array_size in Hrow. simpl.
      by rewrite lookup_replicate_2.
    + destruct (array_only_null c0) eqn:Hnn.
      * destruct c0; try done.
      * rewrite array_to_bitmap_rows by done. rewrite lookup_row_seq by done.
        cbv zeta. by rewrite Hfl.
  - vm_compute. reflexivity.
Qed.

(** ** Row counts *)

(** Closes the goal that a loop body appends one row. *)
Ltac one_row :=
  intros ? ?; simpl; repeat case_match; simplify_eq; simpl;
  first [by exists None | by eexists (Some _)].

Section RowCounts.
Import BitmapFunctions.

Lemma size_build_loop {T S} `{!DefaultValue T} (pb : S → ColumnBuilder T)
    (body : S → nat → S) n s0 (is_const : bool) :
  (∀ s row, ∃ r, pb (body s row) = append_row (pb s) r) →
  pb s0 = builder_new →
  size (build (pb (for_rows n body s0)) is_const) = n.
Proof.
  intros Hbody Hs0.
  destruct (builder_loop_rows pb body (λ _ _, True) n s0) as (rs & Hrs & Hlen & _);
    [|done|].
  - intros s row. destruct (Hbody s row) as [r Hr]. by exists r.
  - by rewrite Hrs, size_build.
Qed.

Lemma for_rows_length {S X} (pl : S → list X) (body : S → nat → S) n s0 :
  (∀ s row, length (pl (body s row)) = Datatypes.S (length (pl s))) →
  length (pl (for_rows n body s0)) = (length (pl s0) + n)%nat.
Proof.
  intros Hbody. unfold for_rows. induction n as [|n IH]; [simpl; lia|].
  rewrite seq_S, fold_left_app. simpl. rewrite Hbody, IH. lia.
Qed.

Lemma size_to_bitmap parse context c0 :
  size (to_bitmap parse context c0).1 = size c0.
Proof.
  unfold to_bitmap.
  match goal with
  | |- context [for_rows ?n ?body ?s0] =>
      pose proof (size_build_loop fst body n s0 (is_constant c0)) as Hsize;
      destruct (for_rows n body s0) as [b ctx]
  end.
  apply Hsize; [|done]. intros [b' ctx'] row. simpl.
  repeat case_match; first [by exists None | by eexists (Some _)].
Qed.

Lemma size_unary_loop {T} `{!DefaultValue T} (body : ColumnBuilder T → nat → ColumnBuilder T)
    n (is_const : bool) :
  (∀ s row, ∃ r, body s row = append_row s r) →
  size (build (for_rows n body builder_new) is_const) = n.
Proof. intros Hbody. by apply (size_build_loop id). Qed.

Lemma size_binary_rows op c0 c1 : size (binary_rows op c0 c1) = size c0.
Proof.
  unfold binary_rows. case_match; [done|]. apply size_unary_loop. one_row.
Qed.

Lemma size_strict_function {A B R} `{!DefaultValue A, !DefaultValue B, !DefaultValue R}
    (impl : A → B → R) (c0 : Column A) (c1 : Column B) :
  size (VectorizedStrictBinaryFunction impl c0 c1) = size c0.
Proof.
  unfold VectorizedStrictBinaryFunction. case_match; [done|].
  apply size_unary_loop. one_row.
Qed.

Lemma size_base64_to_bitmap decode alloc deser c0 :
  size (base64_to_bitmap decode alloc deser c0) = size c0.
Proof.
  unfold base64_to_bitmap.
  match goal with
  | |- context [for_rows ?n ?body ?s0] =>
      pose proof (size_build_loop (λ s, s.1.1) body n s0 (is_constant c0)) as Hsize;
      destruct (for_rows n body s0) as [[b p] last]
  end.
  apply Hsize; [|done]. intros [[b' p'] last'] row. simpl.
  repeat case_match; simplify_eq; simpl;
    first [by exists None | by eexists (Some _)].
Qed.

Lemma fill_offsets_length c0 :
  length (bitmap_to_array_fill c0).1.1 = size c0.
Proof.
  unfold bitmap_to_array_fill. case_match.
  - rewrite (for_rows_length (λ s, s.1.1)); [done|].
    intros [[o d] off] row. simpl. case_match; simpl; rewrite length_app; simpl; lia.
  - rewrite (for_rows_length (λ s, s.1.1)); [done|].
    intros [[o d] off] row. simpl. rewrite length_app; simpl; lia.
Qed.

Lemma size_bitmap_to_array max c0 out :
  bitmap_to_array max c0 = Ok out → size out = size c0.
Proof.
  unfold bitmap_to_array. destruct (bitmap_to_array_data_size max c0); [|done]. simpl.
  pose proof (fill_offsets_length c0) as Hlen.
  destruct (bitmap_to_array_fill c0) as [[array_offsets data] offset]. simpl in Hlen.
  destruct (negb (has_null c0)), (only_null c0); intros [= <-]; try done;
    unfold size at 1, array_size, array_rows; simpl; rewrite length_app; simpl; lia.
Qed.
End RowCounts.


(** ** The theorems at concrete batches *)

Lemma bitmap_to_array_guard_witness :
  let c0 := NullableColumn [(false, ({[ 1%N; 2%N ]} : gset N)); (true, ∅);
                            (false, {[ 3%N; 4%N; 5%N; 6%N ]})] in
  let c1 := NullableColumn [(false, ({[ 1%N; 2%N ]} : gset N)); (true, ∅);
                            (false, {[ 3%N; 4%N ]})] in
  ((∃ row bitmap, rows_of c0 !! row = Some (Some bitmap) ∧
                  3 < BitmapValue.cardinality bitmap) ∧
   BitmapFunctions.bitmap_to_array 3 c0 = Throw "bitmap_to_array not supported size > 3") ∧
  ((∀ row bitmap, rows_of c1 !! row = Some (Some bitmap) →
                  BitmapValue.cardinality bitmap ≤ 3) ∧
   total_element_count c1 = 4 ∧
   BitmapFunctions.bitmap_to_array_data_size 3 c1 = Ok 4 ∧
   ∃ out, BitmapFunctions.bitmap_to_array 3 c1 = Ok out).
Proof.
  assert (Hover : ∃ row bitmap,
    rows_of (NullableColumn [(false, ({[ 1%N; 2%N ]} : gset N)); (true, ∅);
                             (false, {[ 3%N; 4%N; 5%N; 6%N ]})]) !! row
      = Some (Some bitmap) ∧ 3 < BitmapValue.cardinality bitmap).
  { exists 2%nat, {[ 3%N; 4%N; 5%N; 6%N ]}. split; [reflexivity|]. vm_compute. reflexivity. }
  assert (Hwithin : ∀ row bitmap,
    rows_of (NullableColumn [(false, ({[ 1%N; 2%N ]} : gset N)); (true, ∅);
                             (false, {[ 3%N; 4%N ]})]) !! row
      = Some (Some bitmap) → BitmapValue.cardinality bitmap ≤ 3).
  { intros [|[|[|row]]] bitmap; simpl; intros Hrow; inversion Hrow;
      vm_compute; discriminate. }
  split; [split; [exact Hover|exact (proj1 (bitmap_to_array_guard 3 _) Hover)]|].
  split; [exact Hwithin|]. split; [vm_compute; reflexivity|].
  split; [exact (proj1 (proj2 (bitmap_to_array_guard 3 _) Hwithin))|].
  apply (proj2 (proj2 (bitmap_to_array_guard 3 _) Hwithin)).
  vm_compute. reflexivity.
Defined.

Lemma sub_bitmap_degenerate_rows_witness :
  let b := ({[ 1%N; 2%N; 3%N; 4%N; 5%N ]} : gset N) in
  let c0 := NullableColumn [(false, ({[ 1%N; 2%N; 3%N ]} : gset N)); (true, ∅); (false, b)] in
  let c1 := DataColumn [INT_MIN; 0; 1] in
  let c2 := DataColumn [2; 2; 2] in
  rows_of (BitmapFunctions.sub_bitmap c0 c1 None) !! 0%nat = Some None ∧
  rows_of (BitmapFunctions.sub_bitmap c0 c1 None) !! 1%nat = Some None ∧
  rows_of (BitmapFunctions.sub_bitmap c0 c1 None) !! 2%nat
    = Some (Some {[ 2%N; 3%N; 4%N; 5%N ]}) ∧
  rows_of (BitmapFunctions.sub_bitmap c0 c1 (Some c2)) !! 2%nat
    = Some (Some {[ 2%N; 3%N ]}).
Proof.
  cbv zeta. split; [|split; [|split]].
  - apply (proj1 sub_bitmap_degenerate_rows _ _ None 0%nat
             (Some {[ 1%N; 2%N; 3%N ]}) (Some INT_MIN) (Some INT32_MAX));
      [reflexivity..|]. do 4 right. left. reflexivity.
  - apply (proj1 sub_bitmap_degenerate_rows _ _ None 1%nat
             None (Some 0) (Some INT32_MAX));
      [reflexivity..|]. left. reflexivity.
  - refine (eq_trans
      (proj1 (proj2 (proj2 (proj2 sub_bitmap_degenerate_rows)))
         (NullableColumn [(false, ({[ 1%N; 2%N; 3%N ]} : gset N)); (true, ∅);
                          (false, {[ 1%N; 2%N; 3%N; 4%N; 5%N ]})])
         (DataColumn [INT_MIN; 0; 1]) 2%nat
         ({[ 1%N; 2%N; 3%N; 4%N; 5%N ]} : gset N) 1 eq_refl eq_refl _ _) _).
    + split; [vm_compute; discriminate|vm_compute; reflexivity].
    + vm_compute. discriminate.
    + vm_compute. reflexivity.
  - refine (eq_trans
      (proj1 (proj2 sub_bitmap_degenerate_rows)
         (NullableColumn [(false, ({[ 1%N; 2%N; 3%N ]} : gset N)); (true, ∅);
                          (false, {[ 1%N; 2%N; 3%N; 4%N; 5%N ]})])
         (DataColumn [INT_MIN; 0; 1])
         (Some (DataColumn [2; 2; 2])) 2%nat
         ({[ 1%N; 2%N; 3%N; 4%N; 5%N ]} : gset N) 1 2 eq_refl eq_refl eq_refl _ _ _ _) _).
    + reflexivity.
    + discriminate.
    + vm_compute. discriminate.
    + vm_compute. discriminate.
    + vm_compute. reflexivity.
Defined.

Lemma base64_to_bitmap_rows_witness :
  let decode := λ s : string,
    if String.eqb s "/w==" then (1, [Ascii.ascii_of_nat 255]) else (-1, []) in
  let alloc := λ n : Z, replicate (Z.to_nat n) Ascii.zero in
  let deser := λ (b : BitmapValue.t) (_ : list Ascii.ascii), (false, b) in
  let c0 := DataColumn ["/w=="%string] in
  rows_of c0 !! 0%nat = Some (Some "/w=="%string) ∧
  (deser ∅ [Ascii.ascii_of_nat 255]).1 = false ∧
  ∃ bitmap,
    rows_of (BitmapFunctions.base64_to_bitmap decode alloc deser c0) !! 0%nat
    = Some (Some bitmap).
Proof.
  intros decode alloc deser c0. split; [reflexivity|]. split; [reflexivity|].
  apply (proj2 (proj2 (proj2
           (base64_to_bitmap_rows decode alloc deser c0 0 (Some "/w=="%string) eq_refl)))
           "/w=="%string); [reflexivity|discriminate|].
  vm_compute. discriminate.
Defined.

(** The same batch, evaluated: the bytes are refused by the deserializer and
    the row holds the bitmap left in the receiver. *)
Lemma base64_to_bitmap_refused_bytes :
  rows_of (BitmapFunctions.base64_to_bitmap
             (λ s, if String.eqb s "/w==" then (1, [Ascii.ascii_of_nat 255]) else (-1, []))
             (λ n, replicate (Z.to_nat n) Ascii.zero)
             (λ b _, (false, b))
             (DataColumn ["/w=="%string]))
  = [Some ∅].
Proof. vm_compute. reflexivity. Qed.

Lemma bitmap_has_any_is_count_of_and_witness :
  let c0 := DataColumn [({[ 1%N; 2%N ]} : gset N)] in
  let c1 := DataColumn [({[ 2%N; 3%N ]} : gset N)] in
  ∃ (any : bool) (count : Z),
    rows_of (BitmapFunctions.bitmap_has_any c0 c1) !! 0%nat = Some (Some any) ∧
    rows_of (BitmapFunctions.bitmap_count (BitmapFunctions.bitmap_and c0 c1)) !! 0%nat
      = Some (Some count) ∧
    any = (0 <? count).
Proof.
  apply (bitmap_has_any_is_count_of_and _ _ 0 {[ 1%N; 2%N ]} {[ 2%N; 3%N ]});
    reflexivity.
Defined.

Lemma bitmap_and_or_cardinality_witness :
  let c0 := DataColumn [({[ 1%N; 2%N ]} : gset N)] in
  let c1 := DataColumn [({[ 2%N; 3%N ]} : gset N)] in
  let a : gset N := {[ 1%N; 2%N ]} in
  let b : gset N := {[ 2%N; 3%N ]} in
  (∃ r, rows_of (BitmapFunctions.bitmap_and c0 c1) !! 0%nat = Some (Some r) ∧
        BitmapValue.cardinality r
        ≤ Z.min (BitmapValue.cardinality a) (BitmapValue.cardinality b)) ∧
  (∃ r, rows_of (BitmapFunctions.bitmap_or c0 c1) !! 0%nat = Some (Some r) ∧
        Z.max (BitmapValue.cardinality a) (BitmapValue.cardinality b)
        ≤ BitmapValue.cardinality r).
Proof.
  apply (bitmap_and_or_cardinality _ _ 0 {[ 1%N; 2%N ]} {[ 2%N; 3%N ]});
    reflexivity.
Defined.

Lemma array_to_bitmap_members_witness :
  let c0 := NullableArrayCol
              (mkArray (NullableElements [(false, 7); (false, -3); (true, 0); (false, 9)])
                       [0; 1; 4])
              [true; false] in
  ∃ bitmap,
    rows_of (BitmapFunctions.array_to_bitmap c0) !! 1%nat = Some (Some bitmap) ∧
    ∀ v : N, v ∈ bitmap ↔
      ∃ e, Some e ∈ array_row_elements (get_data_column c0) 1 ∧ 0 ≤ e ∧ Z.of_N v = e.
Proof.
  apply (proj1 array_to_bitmap_members
           (NullableArrayCol
              (mkArray (NullableElements [(false, 7); (false, -3); (true, 0); (false, 9)])
                       [0; 1; 4])
              [true; false]) 1%nat).
  - reflexivity.
  - reflexivity.
  - exists 1, 4. repeat split; try reflexivity; simpl; lia.
  - unfold elements_int64. simpl.
    repeat (apply Forall_cons_2; [lia|]). apply Forall_nil_2.
Defined.

(** ** Set algebra through the columns *)

#[local] Set Warnings "-clear-no-such-hyp".

Section ColumnAlgebra.
Import BitmapFunctions.
Implicit Types (op : BitmapValue.t → BitmapValue.t → BitmapValue.t).

(** A fresh bitmap united with [x] is [x]: the first step of every binary
    function. *)
Lemma binary_cell_some op (a b : BitmapValue.t) :
  strict_cell (λ x y, op (BitmapValue.union_with BitmapValue.empty x) y) (Some a) (Some b)
  = Some (op a b).
Proof. simpl. by rewrite union_with_empty. Qed.

Lemma binary_rows_value op c0 c1 row (a b : BitmapValue.t) :
  rows_of c0 !! row = Some (Some a) →
  rows_of c1 !! row = Some (Some b) →
  rows_of (binary_rows op c0 c1) !! row = Some (Some (op a b)).
Proof.
  intros H0 H1. rewrite (binary_rows_row op c0 c1 row (Some a) (Some b)) by done.
  by rewrite binary_cell_some.
Qed.

Lemma binary_rows_null op c0 c1 row a b :
  rows_of c0 !! row = Some a →
  rows_of c1 !! row = Some b →
  a = None ∨ b = None →
  rows_of (binary_rows op c0 c1) !! row = Some None.
Proof.
  intros H0 H1 Hnull. rewrite (binary_rows_row op c0 c1 row a b) by done.
  destruct Hnull as [->| ->]; [done|by destruct a].
Qed.

Lemma binary_rows_commute op c0 c1 row a b :
  (∀ x y : BitmapValue.t, op x y = op y x) →
  rows_of c0 !! row = Some a →
  rows_of c1 !! row = Some b →
  rows_of (binary_rows op c0 c1) !! row = rows_of (binary_rows op c1 c0) !! row.
Proof.
  intros Hop H0 H1.
  rewrite (binary_rows_row op c0 c1 row a b), (binary_rows_row op c1 c0 row b a) by done.
  destruct a, b; simpl; try done. by rewrite !union_with_empty, Hop.
Qed.

Lemma cardinality_union_intersection (a b : BitmapValue.t) :
  BitmapValue.cardinality (BitmapValue.union_with a b) +
  BitmapValue.cardinality (BitmapValue.intersect_with a b)
  = BitmapValue.cardinality a + BitmapValue.cardinality b.
Proof.
  unfold BitmapValue.cardinality, BitmapValue.union_with, BitmapValue.intersect_with.
  assert (Hu : size (a ∪ b) = (size a + size (b ∖ a))%nat).
  { rewrite <- size_union by set_solver. f_equal. apply set_eq. intros x.
    rewrite !elem_of_union, elem_of_difference. destruct (decide (x ∈ a)); naive_solver. }
  assert (Hb : size b = (size (a ∩ b) + size (b ∖ a))%nat).
  { rewrite <- size_union by set_solver. f_equal. apply set_eq. intros x.
    rewrite elem_of_union, elem_of_intersection, elem_of_difference.
    destruct (decide (x ∈ a)); naive_solver. }
  lia.
Qed.
End ColumnAlgebra.

(** X1. [bitmap_or], [bitmap_and] and [bitmap_xor] do not depend on the order
    of their two columns: on every row both columns have, swapping the
    columns gives the same output row, null rows included. *)
Theorem bitmap_or_and_xor_commute (c0 c1 : Column BitmapValue.t) (row : nat)
    (a b : option BitmapValue.t) :
  rows_of c0 !! row = Some a →
  rows_of c1 !! row = Some b →
  rows_of (BitmapFunctions.bitmap_or c0 c1) !! row
    = rows_of (BitmapFunctions.bitmap_or c1 c0) !! row ∧
  rows_of (BitmapFunctions.bitmap_and c0 c1) !! row
    = rows_of (BitmapFunctions.bitmap_and c1 c0) !! row ∧
  rows_of (BitmapFunctions.bitmap_xor c0 c1) !! row
    = rows_of (BitmapFunctions.bitmap_xor c1 c0) !! row.
Proof.
  intros H0 H1. repeat split.
  - apply (binary_rows_commute _ c0 c1 row a b); [|done..].
    intros x y. unfold BitmapValue.union_with. apply (comm_L (∪)).
  - apply (binary_rows_commute _ c0 c1 row a b); [|done..].
    intros x y. unfold BitmapValue.intersect_with. apply (comm_L (∩)).
  - apply (binary_rows_commute _ c0 c1 row a b); [|done..].
    intros x y. unfold BitmapValue.symmetric_difference_with. apply (comm_L (∪)).
Qed.

Lemma bitmap_or_and_xor_commute_witness :
  let c0 := NullableColumn [(false, ({[ 1%N; 2%N ]} : gset N)); (true, ∅)] in
  let c1 := DataColumn [({[ 2%N; 3%N ]} : gset N); {[ 7%N ]}] in
  rows_of (BitmapFunctions.bitmap_or c0 c1) !! 1%nat
    = rows_of (BitmapFunctions.bitmap_or c1 c0) !! 1%nat ∧
  rows_of (BitmapFunctions.bitmap_and c0 c1) !! 1%nat
    = rows_of (BitmapFunctions.bitmap_and c1 c0) !! 1%nat ∧
  rows_of (BitmapFunctions.bitmap_xor c0 c1) !! 1%nat
    = rows_of (BitmapFunctions.bitmap_xor c1 c0) !! 1%nat.
Proof.
  apply (bitmap_or_and_xor_commute _ _ 1 None (Some {[ 7%N ]})); reflexivity.
Defined.

(** X2. On a row where both inputs hold a bitmap, the counts of the union and
    of the intersection add up to the counts of the two inputs:
    [bitmap_count(bitmap_or(a,b)) + bitmap_count(bitmap_and(a,b))
     = bitmap_count(a) + bitmap_count(b)]. *)
Theorem bitmap_count_or_plus_and (c0 c1 : Column BitmapValue.t) (row : nat)
    (a b : BitmapValue.t) :
  rows_of c0 !! row = Some (Some a) →
  rows_of c1 !! row = Some (Some b) →
  ∃ n_or n_and n0 n1 : Z,
    rows_of (BitmapFunctions.bitmap_count (BitmapFunctions.bitmap_or c0 c1)) !! row
      = Some (Some n_or) ∧
    rows_of (BitmapFunctions.bitmap_count (BitmapFunctions.bitmap_and c0 c1)) !! row
      = Some (Some n_and) ∧
    rows_of (BitmapFunctions.bitmap_count c0) !! row = Some (Some n0) ∧
    rows_of (BitmapFunctions.bitmap_count c1) !! row = Some (Some n1) ∧
    n_or + n_and = n0 + n1.
Proof.
  intros H0 H1.
  exists (BitmapValue.cardinality (BitmapValue.union_with a b)),
         (BitmapValue.cardinality (BitmapValue.intersect_with a b)),
         (BitmapValue.cardinality a), (BitmapValue.cardinality b).
  split; [|split; [|split; [|split]]].
  - rewrite bitmap_count_rows, list_lookup_fmap. unfold BitmapFunctions.bitmap_or.
    by rewrite (binary_rows_value _ c0 c1 row a b).
  - rewrite bitmap_count_rows, list_lookup_fmap. unfold BitmapFunctions.bitmap_and.
    by rewrite (binary_rows_value _ c0 c1 row a b).
  - by rewrite bitmap_count_rows, list_lookup_fmap, H0.
  - by rewrite bitmap_count_rows, list_lookup_fmap, H1.
  - apply cardinality_union_intersection.
Qed.

Lemma bitmap_count_or_plus_and_witness :
  let c0 := DataColumn [({[ 1%N; 2%N ]} : gset N)] in
  let c1 := DataColumn [({[ 2%N; 3%N; 4%N ]} : gset N)] in
  ∃ n_or n_and n0 n1 : Z,
    rows_of (BitmapFunctions.bitmap_count (BitmapFunctions.bitmap_or c0 c1)) !! 0%nat
      = Some (Some n_or) ∧
    rows_of (BitmapFunctions.bitmap_count (BitmapFunctions.bitmap_and c0 c1)) !! 0%nat
      = Some (Some n_and) ∧
    rows_of (BitmapFunctions.bitmap_count c0) !! 0%nat = Some (Some n0) ∧
    rows_of (BitmapFunctions.bitmap_count c1) !! 0%nat = Some (Some n1) ∧
    n_or + n_and = n0 + n1.
Proof.
  apply (bitmap_count_or_plus_and _ _ 0 {[ 1%N; 2%N ]} {[ 2%N; 3%N; 4%N ]});
    reflexivity.
Defined.

(** X3. [bitmap_xor] is [bitmap_andnot] of [bitmap_or] and [bitmap_and]: on
    every row both columns have, [bitmap_xor(a,b)] and
    [bitmap_andnot(bitmap_or(a,b), bitmap_and(a,b))] give the same output
    row, null rows included. *)
Theorem bitmap_xor_is_or_andnot_and (c0 c1 : Column BitmapValue.t) (row : nat)
    (a b : option BitmapValue.t) :
  rows_of c0 !! row = Some a →
  rows_of c1 !! row = Some b →
  rows_of (BitmapFunctions.bitmap_xor c0 c1) !! row
  = rows_of (BitmapFunctions.bitmap_andnot (BitmapFunctions.bitmap_or c0 c1)
                                            (BitmapFunctions.bitmap_and c0 c1)) !! row.
Proof.
  intros H0 H1.
  unfold BitmapFunctions.bitmap_xor, BitmapFunctions.bitmap_andnot,
    BitmapFunctions.bitmap_or, BitmapFunctions.bitmap_and.
  rewrite (binary_rows_row _ c0 c1 row a b) by done.
  erewrite (binary_rows_row _ (BitmapFunctions.binary_rows _ c0 c1)
              (BitmapFunctions.binary_rows _ c0 c1) row);
    [|by apply binary_rows_row..].
  destruct a as [a|], b as [b|]; simpl; try done.
  rewrite !union_with_empty. do 2 f_equal.
  unfold BitmapValue.symmetric_difference_with, BitmapValue.difference_with,
    BitmapValue.union_with, BitmapValue.intersect_with.
  apply set_eq. intros x.
  rewrite elem_of_union, !elem_of_difference, elem_of_union, elem_of_intersection.
  destruct (decide (x ∈ a)), (decide (x ∈ b)); naive_solver.
Qed.

Lemma bitmap_xor_is_or_andnot_and_witness :
  let c0 := DataColumn [({[ 1%N; 2%N ]} : gset N)] in
  let c1 := DataColumn [({[ 2%N; 3%N ]} : gset N)] in
  rows_of (BitmapFunctions.bitmap_xor c0 c1) !! 0%nat
  = rows_of (BitmapFunctions.bitmap_andnot (BitmapFunctions.bitmap_or c0 c1)
                                            (BitmapFunctions.bitmap_and c0 c1)) !! 0%nat.
Proof.
  apply (bitmap_xor_is_or_andnot_and _ _ 0 (Some {[ 1%N; 2%N ]}) (Some {[ 2%N; 3%N ]}));
    reflexivity.
Defined.

Section DifferenceAndRemoval.
Import BitmapFunctions.

Lemma bitmap_remove_row c0 c1 row a v :
  rows_of c0 !! row = Some a →
  rows_of c1 !! row = Some v →
  rows_of (bitmap_remove c0 c1) !! row =
  Some (strict_cell (λ x y, BitmapValue.remove x (to_uint64 y)) a v).
Proof.
  intros H0 H1. unfold bitmap_remove.
  rewrite (strict_binary_row
             (λ x y, BitmapValue.remove (BitmapValue.union_with BitmapValue.empty x)
                       (to_uint64 y)) _ c0 c1 row a v); [| |done..].
  - destruct a, v; simpl; try done. by rewrite union_with_empty.
  - intros bl r. unfold strict_cell, view.
    by destruct (viewer_is_null c0 r), (viewer_is_null c1 r).
Qed.

Lemma has_any_disjoint (x y : BitmapValue.t) :
  x ∩ y = ∅ → bitmapHasAny x y = false.
Proof.
  intros Hd. unfold bitmapHasAny. rewrite union_with_empty.
  unfold BitmapValue.intersect_with, BitmapValue.cardinality.
  by rewrite Hd, size_empty.
Qed.

Lemma has_any_comm (x y : BitmapValue.t) : bitmapHasAny x y = bitmapHasAny y x.
Proof.
  unfold bitmapHasAny. rewrite !union_with_empty.
  unfold BitmapValue.intersect_with. by rewrite (comm_L (∩) x y).
Qed.

Lemma to_uint64_to_N v : 0 ≤ v < 2 ^ 63 → to_uint64 v = Z.to_N v.
Proof. intros Hv. unfold to_uint64. by rewrite Z.mod_small by lia. Qed.

Lemma contains_after_remove (a : BitmapValue.t) v :
  - 2 ^ 63 ≤ v < 2 ^ 63 →
  BitmapValue.contains (BitmapValue.remove a (to_uint64 v)) v = false.
Proof.
  intros Hv. unfold BitmapValue.contains, BitmapValue.remove.
  apply bool_decide_eq_false. intros [Hge Hin].
  rewrite to_uint64_to_N in Hin by lia.
  apply elem_of_difference in Hin as [_ Hnot]. apply Hnot. by apply elem_of_singleton.
Qed.
End DifferenceAndRemoval.

(** X4. On a row where both inputs hold a bitmap, [bitmap_andnot] gives the
    members of the left bitmap that the right one lacks, and the result never
    shares a member with the right bitmap: [bitmap_has_any] of the result and
    the right column is false on that row. *)
Theorem bitmap_andnot_excludes_right (c0 c1 : Column BitmapValue.t) (row : nat)
    (a b : BitmapValue.t) :
  rows_of c0 !! row = Some (Some a) →
  rows_of c1 !! row = Some (Some b) →
  ∃ r : BitmapValue.t,
    rows_of (BitmapFunctions.bitmap_andnot c0 c1) !! row = Some (Some r) ∧
    (∀ x, x ∈ r ↔ x ∈ a ∧ x ∉ b) ∧
    rows_of (BitmapFunctions.bitmap_has_any (BitmapFunctions.bitmap_andnot c0 c1) c1)
      !! row = Some (Some false).
Proof.
  intros H0 H1.
  assert (Hrow : rows_of (BitmapFunctions.bitmap_andnot c0 c1) !! row
                 = Some (Some (BitmapValue.difference_with a b))).
  { unfold BitmapFunctions.bitmap_andnot. by apply binary_rows_value. }
  exists (BitmapValue.difference_with a b). split; [done|]. split.
  - intros x. unfold BitmapValue.difference_with. apply elem_of_difference.
  - unfold BitmapFunctions.bitmap_has_any.
    rewrite (strict_function_row _ _ c1 row _ _ Hrow H1). simpl.
    rewrite has_any_disjoint; [done|].
    unfold BitmapValue.difference_with. apply set_eq. intros x.
    rewrite elem_of_intersection, elem_of_difference, elem_of_empty. naive_solver.
Qed.

Lemma bitmap_andnot_excludes_right_witness :
  let c0 := DataColumn [({[ 1%N; 2%N; 3%N ]} : gset N)] in
  let c1 := DataColumn [({[ 2%N; 9%N ]} : gset N)] in
  ∃ r : BitmapValue.t,
    rows_of (BitmapFunctions.bitmap_andnot c0 c1) !! 0%nat = Some (Some r) ∧
    (∀ x, x ∈ r ↔ x ∈ ({[ 1%N; 2%N; 3%N ]} : gset N) ∧ x ∉ ({[ 2%N; 9%N ]} : gset N)) ∧
    rows_of (BitmapFunctions.bitmap_has_any (BitmapFunctions.bitmap_andnot c0 c1) c1)
      !! 0%nat = Some (Some false).
Proof.
  apply (bitmap_andnot_excludes_right _ _ 0 {[ 1%N; 2%N; 3%N ]} {[ 2%N; 9%N ]});
    reflexivity.
Defined.

(** X5. On a row where the bitmap and the 64-bit value are both present,
    [bitmap_remove] gives the bitmap without the value converted to
    [uint64_t] (a negative value [v] removes the member [2^64 + v]); a value
    that is not a member leaves the bitmap as it was; and [bitmap_contains] of
    the result and the same value is false on that row. *)
Theorem bitmap_remove_then_contains (c0 : Column BitmapValue.t) (c1 : Column Z)
    (row : nat) (a : BitmapValue.t) (v : Z) :
  rows_of c0 !! row = Some (Some a) →
  rows_of c1 !! row = Some (Some v) →
  - 2 ^ 63 ≤ v < 2 ^ 63 →
  ∃ r : BitmapValue.t,
    rows_of (BitmapFunctions.bitmap_remove c0 c1) !! row = Some (Some r) ∧
    (∀ x, x ∈ r ↔ x ∈ a ∧ x ≠ to_uint64 v) ∧
    (to_uint64 v ∉ a → r = a) ∧
    rows_of (BitmapFunctions.bitmap_contains (BitmapFunctions.bitmap_remove c0 c1) c1)
      !! row = Some (Some false).
Proof.
  intros H0 H1 Hv.
  assert (Hrow : rows_of (BitmapFunctions.bitmap_remove c0 c1) !! row
                 = Some (Some (BitmapValue.remove a (to_uint64 v)))).
  { by rewrite (bitmap_remove_row c0 c1 row (Some a) (Some v)). }
  exists (BitmapValue.remove a (to_uint64 v)). split; [done|]. split; [|split].
  - intros x. unfold BitmapValue.remove.
    rewrite elem_of_difference, elem_of_singleton. done.
  - intros Hnot. unfold BitmapValue.remove. apply set_eq. intros x.
    rewrite elem_of_difference, elem_of_singleton. naive_solver.
  - unfold BitmapFunctions.bitmap_contains.
    rewrite (strict_function_row _ _ c1 row _ _ Hrow H1). simpl.
    unfold BitmapFunctions.bitmapContainsImpl. by rewrite contains_after_remove.
Qed.

Lemma bitmap_remove_then_contains_witness :
  let c0 := DataColumn [({[ 1%N; 18446744073709551615%N ]} : gset N)] in
  let c1 := DataColumn [-1] in
  ∃ r : BitmapValue.t,
    rows_of (BitmapFunctions.bitmap_remove c0 c1) !! 0%nat = Some (Some r) ∧
    (∀ x, x ∈ r ↔ x ∈ ({[ 1%N; 18446744073709551615%N ]} : gset N) ∧ x ≠ to_uint64 (-1)) ∧
    (to_uint64 (-1) ∉ ({[ 1%N; 18446744073709551615%N ]} : gset N) →
     r = {[ 1%N; 18446744073709551615%N ]}) ∧
    rows_of (BitmapFunctions.bitmap_contains (BitmapFunctions.bitmap_remove c0 c1) c1)
      !! 0%nat = Some (Some false).
Proof.
  apply (bitmap_remove_then_contains _ _ 0 {[ 1%N; 18446744073709551615%N ]} (-1));
    [reflexivity|reflexivity|lia].
Defined.

(** X6. [bitmap_has_any] does not depend on the order of its two columns, a
    null on either side gives a null row, and a row where one side holds the
    empty bitmap is false. *)
Theorem bitmap_has_any_symmetric (c0 c1 : Column BitmapValue.t) (row : nat)
    (a b : option BitmapValue.t) :
  rows_of c0 !! row = Some a →
  rows_of c1 !! row = Some b →
  rows_of (BitmapFunctions.bitmap_has_any c0 c1) !! row
    = rows_of (BitmapFunctions.bitmap_has_any c1 c0) !! row ∧
  (a = None ∨ b = None →
   rows_of (BitmapFunctions.bitmap_has_any c0 c1) !! row = Some None) ∧
  (a = Some ∅ → is_Some b →
   rows_of (BitmapFunctions.bitmap_has_any c0 c1) !! row = Some (Some false)).
Proof.
  intros H0 H1. unfold BitmapFunctions.bitmap_has_any.
  rewrite (strict_function_row _ c0 c1 row a b), (strict_function_row _ c1 c0 row b a)
    by done.
  split; [|split].
  - destruct a, b; simpl; try done. by rewrite has_any_comm.
  - intros [->| ->]; [done|by destruct a].
  - intros -> [y ->]. simpl. rewrite has_any_disjoint; [done|]. apply (left_absorb_L ∅ (∩)).
Qed.

Lemma bitmap_has_any_symmetric_witness :
  let c0 := DataColumn [(∅ : gset N)] in
  let c1 := DataColumn [({[ 2%N; 9%N ]} : gset N)] in
  rows_of (BitmapFunctions.bitmap_has_any c0 c1) !! 0%nat
    = rows_of (BitmapFunctions.bitmap_has_any c1 c0) !! 0%nat ∧
  (Some (∅ : gset N) = None ∨ Some ({[ 2%N; 9%N ]} : gset N) = None →
   rows_of (BitmapFunctions.bitmap_has_any c0 c1) !! 0%nat = Some None) ∧
  (Some (∅ : gset N) = Some ∅ → is_Some (Some ({[ 2%N; 9%N ]} : gset N)) →
   rows_of (BitmapFunctions.bitmap_has_any c0 c1) !! 0%nat = Some (Some false)).
Proof.
  apply (bitmap_has_any_symmetric _ _ 0 (Some ∅) (Some {[ 2%N; 9%N ]})); reflexivity.
Defined.

(** X7. [bitmap_count] of [bitmap_hash] is 1 on every row that holds a text
    and 0 on every null row, whatever the hash function: the hash of a text
    is always a bitmap of one member, the hash of a null the empty bitmap. *)
Theorem bitmap_count_of_hash (hash : string → N) (c0 : Column string) :
  rows_of (BitmapFunctions.bitmap_count (BitmapFunctions.bitmap_hash hash c0))
  = (λ r : option string, Some (match r with Some _ => 1 | None => 0 end)) <$> rows_of c0.
Proof.
  rewrite bitmap_count_rows, bitmap_hash_rows, <- list_fmap_compose.
  apply list_fmap_ext. intros i [text|] _; simpl; [|done].
  f_equal. apply singleton_bitmap.
Qed.

Section ToBitmapDiagnostics.
Variable parse : string → N * ParseResult.

Lemma row_errors_diagnostic c0 row :
  Rows.to_bitmap_row_errors parse c0 row
  = option_list (to_bitmap_diagnostic parse (view c0 row)).
Proof.
  unfold Rows.to_bitmap_row_errors, to_bitmap_diagnostic, view, to_bitmap_message.
  destruct (viewer_is_null c0 row); [done|].
  rewrite <- to_bitmap_error_text.
  by destruct (parse (viewer_value c0 row)) as [value []].
Qed.

Lemma join_option_list {A B} (g : A → option B) (l : list A) :
  mjoin ((λ x, option_list (g x)) <$> l) = omap g l.
Proof.
  induction l as [|x l IH]; [done|]. csimpl. rewrite IH. by destruct (g x).
Qed.
End ToBitmapDiagnostics.



(** ** bitmap_from_string *)

Section FromString.
Import BitmapFunctions.
Variable split : string → bool * list N.

Lemma size_list_to_set_le (l : list N) :
  (size (list_to_set l : gset N) ≤ length l)%nat.
Proof.
  unfold size, set_size. simpl.
  apply submseteq_length, NoDup_submseteq; [apply NoDup_elements|].
  intros x Hx%elem_of_elements. by apply elem_of_list_to_set in Hx.
Qed.

Lemma bitmap_from_string_rows c0 :
  rows_of (bitmap_from_string split c0) = from_string_cell split <$> rows_of c0.
Proof.
  unfold bitmap_from_string, any_only_null. simpl. rewrite orb_false_r.
  destruct (only_null c0) eqn:Hon.
  - destruct c0; try done. simpl. by rewrite fmap_replicate.
  - apply unary_rows. intros bl r. unfold from_string_cell, view.
    destruct (viewer_is_null c0 r); [done|].
    destruct (split (viewer_value c0 r)) as [parsed bits].
    by destruct (_ || _).
Qed.
End FromString.

(** X9. A row of [bitmap_from_string] is null when the input row is null,
    when its text is longer than [INT32_MAX] bytes (even if it would parse)
    and when [SplitStringAndParse] fails (the numbers it had pushed are
    dropped: there is no partial set); otherwise the row is the bitmap whose
    members are exactly the numbers of the list, duplicates counted once. *)
Theorem bitmap_from_string_row (split : string → bool * list N)
    (c0 : Column string) (row : nat) (input : option string) :
  rows_of c0 !! row = Some input →
  let out := BitmapFunctions.bitmap_from_string split c0 in
  (input = None → rows_of out !! row = Some None) ∧
  (∀ text, input = Some text → INT32_MAX < Z.of_nat (String.length text) →
     rows_of out !! row = Some None) ∧
  (∀ text, input = Some text → (split text).1 = false →
     rows_of out !! row = Some None) ∧
  (∀ text, input = Some text → Z.of_nat (String.length text) ≤ INT32_MAX →
     (split text).1 = true →
     ∃ bitmap : BitmapValue.t,
       rows_of out !! row = Some (Some bitmap) ∧
       (∀ x, x ∈ bitmap ↔ x ∈ (split text).2) ∧
       BitmapValue.cardinality bitmap ≤ Z.of_nat (length (split text).2)).
Proof.
  intros Hrow out. subst out.
  rewrite bitmap_from_string_rows, list_lookup_fmap, Hrow. simpl.
  split; [|split; [|split]].
  - by intros ->.
  - intros text -> Hlong. simpl. destruct (split text) as [parsed bits].
    by rewrite (proj2 (Z.ltb_lt _ _) Hlong).
  - intros text -> Hfail. simpl. destruct (split text) as [parsed bits].
    simpl in Hfail. subst parsed. by rewrite orb_true_r.
  - intros text -> Hlen Hok. simpl. destruct (split text) as [parsed bits].
    simpl in *. subst parsed. rewrite (proj2 (Z.ltb_ge _ _) Hlen). simpl.
    eexists. split; [done|]. unfold BitmapValue.from_members, BitmapValue.cardinality.
    split.
    + intros x. apply elem_of_list_to_set.
    + apply inj_le, size_list_to_set_le.
Qed.

Lemma bitmap_from_string_row_witness :
  let split := λ s : string,
    if String.eqb s "3,1,3" then (true, [3%N; 1%N; 3%N]) else (false, [7%N]) in
  let c0 := DataColumn ["3,1,3"%string; "7,x"%string] in
  let out := BitmapFunctions.bitmap_from_string split c0 in
  rows_of out !! 1%nat = Some None ∧
  ∃ bitmap : BitmapValue.t,
    rows_of out !! 0%nat = Some (Some bitmap) ∧
    (∀ x, x ∈ bitmap ↔ x ∈ [3%N; 1%N; 3%N]) ∧
    BitmapValue.cardinality bitmap ≤ 3.
Proof.
  intros split c0 out. split.
  - apply (proj1 (proj2 (proj2
             (bitmap_from_string_row split c0 1 (Some "7,x"%string) eq_refl)))
             "7,x"%string); reflexivity.
  - apply (proj2 (proj2 (proj2
             (bitmap_from_string_row split c0 0 (Some "3,1,3"%string) eq_refl)))
             "3,1,3"%string); [reflexivity|vm_compute; discriminate|reflexivity].
Defined.

(** ** bitmap_max and bitmap_min *)

Section Extrema.
Import BitmapFunctions.

Lemma bitmap_max_rows c0 :
  rows_of (bitmap_max c0) = (λ r, r ≫= BitmapValue.max) <$> rows_of c0.
Proof.
  unfold bitmap_max. apply unary_rows. intros bl r. unfold view.
  destruct (viewer_is_null c0 r); [done|]. simpl.
  by destruct (BitmapValue.max (viewer_value c0 r)).
Qed.

Lemma bitmap_min_rows c0 :
  rows_of (bitmap_min c0) = (λ r, r ≫= BitmapValue.min) <$> rows_of c0.
Proof.
  unfold bitmap_min. apply unary_rows. intros bl r. unfold view.
  destruct (viewer_is_null c0 r); [done|]. simpl.
  by destruct (BitmapValue.min (viewer_value c0 r)).
Qed.

Lemma members_empty (b : BitmapValue.t) : BitmapValue.members b = [] ↔ b = ∅.
Proof.
  destruct (members_ascending b) as (_ & _ & Hin). split.
  - intros Hnil. apply set_eq. intros x. rewrite <- Hin, Hnil. set_solver.
  - intros ->. destruct (BitmapValue.members ∅) as [|x l] eqn:Hm; [done|].
    exfalso. apply (not_elem_of_empty (C:=gset N) x). apply Hin. left.
Qed.

Lemma sorted_head_least (l : list N) x :
  Sorted N.le l → head l = Some x → ∀ y, y ∈ l → (x ≤ y)%N.
Proof.
  intros Hs Hh y Hy. destruct l as [|x' l]; [done|]. injection Hh as ->.
  apply (Sorted_StronglySorted N.le) in Hs. inversion Hs as [|? ? _ Hall]; subst.
  apply elem_of_cons in Hy as [->|Hy]; [lia|].
  rewrite Forall_forall in Hall. by apply Hall.
Qed.

Lemma sorted_last_greatest (l : list N) x :
  Sorted N.le l → last l = Some x → ∀ y, y ∈ l → (y ≤ x)%N.
Proof.
  intros Hs%(Sorted_StronglySorted N.le).
  induction Hs as [|z l Hs IH Hall]; intros Hl y Hy; [by apply elem_of_nil in Hy|].
  destruct l as [|z' l'].
  - simpl in Hl. injection Hl as ->. apply list_elem_of_singleton in Hy as ->. lia.
  - rewrite last_cons_cons in Hl. apply elem_of_cons in Hy as [->|Hy]; [|by apply IH].
    rewrite Forall_forall in Hall.
    etrans; [apply (Hall z'); left|]. apply IH; [done|left].
Qed.
End Extrema.

(** X10. A row of [bitmap_max] and of [bitmap_min] is null when the input row
    is null and when it holds the empty bitmap; for a bitmap with members
    both rows hold a member of the bitmap, every member lies between the
    minimum and the maximum, and so [bitmap_min <= bitmap_max]. *)
Theorem bitmap_min_max_rows (c0 : Column BitmapValue.t) (row : nat)
    (input : option BitmapValue.t) :
  rows_of c0 !! row = Some input →
  (input = None ∨ input = Some ∅ →
   rows_of (BitmapFunctions.bitmap_min c0) !! row = Some None ∧
   rows_of (BitmapFunctions.bitmap_max c0) !! row = Some None) ∧
  (∀ b : BitmapValue.t, input = Some b → b ≠ ∅ →
   ∃ lo hi : N,
     rows_of (BitmapFunctions.bitmap_min c0) !! row = Some (Some (Z.of_N lo)) ∧
     rows_of (BitmapFunctions.bitmap_max c0) !! row = Some (Some (Z.of_N hi)) ∧
     lo ∈ b ∧ hi ∈ b ∧ (∀ x, x ∈ b → (lo ≤ x ≤ hi)%N)).
Proof.
  intros Hrow. rewrite bitmap_min_rows, bitmap_max_rows, !list_lookup_fmap, Hrow. simpl.
  split.
  - intros [->| ->]; [done|].
    change (Some (BitmapValue.min ∅) = Some None ∧ Some (BitmapValue.max ∅) = Some None).
    unfold BitmapValue.min, BitmapValue.max.
    by rewrite (proj2 (members_empty ∅) eq_refl).
  - intros b -> Hne. simpl. unfold BitmapValue.min, BitmapValue.max.
    destruct (members_ascending b) as (Hsorted & _ & Hin).
    destruct (BitmapValue.members b) as [|x l] eqn:Hm.
    { exfalso. apply Hne. by apply members_empty. }
    destruct (last (x :: l)) as [hi|] eqn:Hlast;
      [|by apply last_None in Hlast].
    exists x, hi. simpl. repeat split.
    + apply Hin. left.
    + apply Hin. by apply last_Some_elem_of.
    + apply (sorted_head_least (x :: l)); [done..|]. by apply Hin.
    + apply (sorted_last_greatest (x :: l)); [done..|]. by apply Hin.
Qed.

Lemma bitmap_min_max_rows_witness :
  let c0 := DataColumn [({[ 5%N; 2%N; 9%N ]} : gset N); ∅] in
  (Some ({[ 5%N; 2%N; 9%N ]} : gset N) = None ∨
   Some ({[ 5%N; 2%N; 9%N ]} : gset N) = Some ∅ →
   rows_of (BitmapFunctions.bitmap_min c0) !! 0%nat = Some None ∧
   rows_of (BitmapFunctions.bitmap_max c0) !! 0%nat = Some None) ∧
  (∀ b : BitmapValue.t, Some ({[ 5%N; 2%N; 9%N ]} : gset N) = Some b → b ≠ ∅ →
   ∃ lo hi : N,
     rows_of (BitmapFunctions.bitmap_min c0) !! 0%nat = Some (Some (Z.of_N lo)) ∧
     rows_of (BitmapFunctions.bitmap_max c0) !! 0%nat = Some (Some (Z.of_N hi)) ∧
     lo ∈ b ∧ hi ∈ b ∧ (∀ x, x ∈ b → (lo ≤ x ≤ hi)%N)).
Proof.
  apply (bitmap_min_max_rows _ 0 (Some {[ 5%N; 2%N; 9%N ]})). reflexivity.
Defined.

(** ** The layout bitmap_to_array builds *)

Section ToArrayLayout.
Import BitmapFunctions.
Implicit Types (rs : list (option BitmapValue.t)) (r : option BitmapValue.t).

Lemma at_index_lookup {T} `{!DefaultValue T} (l : list T) i x :
  l !! i = Some x → at_index l i = x.
Proof. intros Hi. unfold at_index. by rewrite Hi. Qed.

(** Both branches of the second pass run [fill_step] over the rows. *)
Lemma fill_as_rows c0 :
  bitmap_to_array_fill c0 = fold_left fill_step (rows_of c0) ([], [], 0).
Proof.
  rewrite (rows_of_view c0), fold_left_rows.
  unfold bitmap_to_array_fill, for_rows.
  destruct (has_null c0) eqn:Hhas; apply fold_left_pointwise;
    intros [[o d] off] row; unfold fill_step, view; simpl.
  - destruct (viewer_is_null c0 row); simpl; [|done].
    by rewrite app_nil_r.
  - by rewrite no_null_viewer.
Qed.

Lemma row_values_length r : Z.of_nat (length (row_values r)) = row_count r.
Proof.
  destruct r as [b|]; simpl; [|done].
  unfold BitmapValue.cardinality, BitmapValue.members.
  rewrite length_fmap, merge_sort_Permutation. done.
Qed.

Lemma to_int64_small (v : Z) : 0 ≤ v < 2 ^ 63 → to_int64 v = v.
Proof. intros Hv. unfold to_int64. rewrite Z.mod_small by lia. lia. Qed.

(** The values of a bitmap whose members fit a non-negative [int64_t] are
    the members themselves. *)
Lemma row_values_members (b : BitmapValue.t) :
  (∀ x, x ∈ b → Z.of_N x < 2 ^ 63) →
  row_values (Some b) = Z.of_N <$> BitmapValue.members b.
Proof.
  intros Hint. simpl. apply list_fmap_ext. intros i m Hm.
  apply to_int64_small. split; [lia|]. apply Hint.
  destruct (members_ascending b) as (_ & _ & Hin). apply Hin.
  by eapply list_elem_of_lookup_2.
Qed.

Lemma row_count_nonneg r : 0 ≤ row_count r.
Proof. rewrite <- row_values_length. lia. Qed.

Lemma count_rows_nonneg rs : 0 ≤ count_rows rs.
Proof.
  induction rs as [|r rs IH]; unfold count_rows in *; simpl; [done|].
  pose proof (row_count_nonneg r). lia.
Qed.

(** As long as the running count fits an [int], the second pass writes the
    running sums and ends on the total. *)
Lemma fill_fold rs o d off :
  0 ≤ off → off + count_rows rs < 2 ^ 31 →
  fold_left fill_step rs (o, d, off)
  = (o ++ offsets_from off rs, d ++ flat_values rs, off + count_rows rs).
Proof.
  revert o d off. induction rs as [|r rs IH]; intros o d off Hoff Hfit.
  - unfold flat_values, count_rows. simpl. by rewrite !app_nil_r, Z.add_0_r.
  - change (count_rows (r :: rs)) with (row_count r + count_rows rs) in *.
    pose proof (row_count_nonneg r) as Hr. pose proof (count_rows_nonneg rs) as Hrs.
    cbn [fold_left]. unfold fill_step at 2.
    replace (to_uint32 off) with off by (unfold to_uint32; rewrite Z.mod_small; lia).
    replace (match r with
             | Some bitmap => to_int32 (off + BitmapValue.cardinality bitmap)
             | None => off
             end) with (off + row_count r).
    2:{ destruct r as [b|]; simpl in *; [|lia].
        unfold to_int32. rewrite Z.mod_small by lia. lia. }
    rewrite IH by lia. unfold flat_values. csimpl.
    rewrite <- !app_assoc. simpl. f_equal. lia.
Qed.

Lemma flat_values_length rs : Z.of_nat (length (flat_values rs)) = count_rows rs.
Proof.
  induction rs as [|r rs IH]; unfold flat_values, count_rows in *; csimpl; [done|].
  rewrite length_app, Nat2Z.inj_add, IH, row_values_length. done.
Qed.

Lemma count_rows_app rs1 rs2 : count_rows (rs1 ++ rs2) = count_rows rs1 + count_rows rs2.
Proof.
  induction rs1 as [|r rs1 IH]; unfold count_rows in *; simpl; [done|].
  rewrite IH. lia.
Qed.

Lemma flat_values_app rs1 rs2 : flat_values (rs1 ++ rs2) = flat_values rs1 ++ flat_values rs2.
Proof. unfold flat_values. by rewrite fmap_app, join_app. Qed.

Lemma count_rows_cons r rs : count_rows (r :: rs) = row_count r + count_rows rs.
Proof. reflexivity. Qed.

(** The offsets are the running sums: entry [i] is the count of the rows
    before row [i], and the entry after the last row is the total. *)
Lemma offsets_lookup rs start i :
  (i ≤ length rs)%nat →
  (offsets_from start rs ++ [start + count_rows rs]) !! i
  = Some (start + count_rows (take i rs)).
Proof.
  revert start i. induction rs as [|r rs IH]; intros start i Hi.
  - simpl in Hi. replace i with 0%nat by lia. unfold count_rows. simpl. done.
  - destruct i as [|i].
    + simpl. unfold count_rows. simpl. f_equal. lia.
    + change ((offsets_from start (r :: rs) ++ [start + count_rows (r :: rs)]) !! S i)
        with ((offsets_from (start + row_count r) rs
               ++ [start + count_rows (r :: rs)]) !! i).
      change (take (S i) (r :: rs)) with (r :: take i rs).
      rewrite !count_rows_cons, Z.add_assoc.
      rewrite IH by (simpl in Hi; lia). f_equal. lia.
Qed.

(** The values of row [i] sit between its two offsets. *)
Lemma flat_segment rs i r :
  rs !! i = Some r →
  take (Z.to_nat (row_count r)) (drop (Z.to_nat (count_rows (take i rs))) (flat_values rs))
  = row_values r.
Proof.
  intros Hi. rewrite <- (take_drop_middle rs i r Hi) at 2.
  rewrite flat_values_app. rewrite drop_app_length'.
  - unfold flat_values at 1. csimpl. rewrite take_app_length'; [done|].
    pose proof (row_values_length r). lia.
  - pose proof (flat_values_length (take i rs)). lia.
Qed.

Lemma count_take_le rs i r :
  rs !! i = Some r → count_rows (take i rs) + row_count r ≤ count_rows rs.
Proof.
  intros Hi. rewrite <- (take_drop_middle rs i r Hi) at 2.
  rewrite count_rows_app. unfold count_rows at 3. simpl.
  pose proof (count_rows_nonneg (drop (S i) rs)). unfold count_rows in *. lia.
Qed.

Lemma count_take_succ rs i r :
  rs !! i = Some r → count_rows (take (S i) rs) = count_rows (take i rs) + row_count r.
Proof.
  intros Hi. rewrite (take_S_r rs i r Hi), count_rows_app.
  unfold count_rows at 2. simpl. lia.
Qed.

Lemma bitmap_to_array_built max c0 out :
  bitmap_to_array max c0 = Ok out →
  count_rows (rows_of c0) < 2 ^ 31 →
  out = if negb (has_null c0) then ArrayCol (built_array (rows_of c0))
        else if only_null c0 then ConstNullArrayCol (size c0)
        else NullableArrayCol (built_array (rows_of c0)) (null_column c0).
Proof.
  intros Hout Hfit. revert Hout.
  pose proof (count_rows_nonneg (rows_of c0)) as Hpos.
  unfold bitmap_to_array. destruct (bitmap_to_array_data_size max c0); [|done]. simpl.
  rewrite fill_as_rows, fill_fold by lia. rewrite Z.add_0_l.
  unfold to_uint32, to_size_t. rewrite !Z.mod_small by lia. simpl.
  destruct (negb (has_null c0)), (only_null c0); by intros [= <-].
Qed.

Lemma built_element_data rs : element_data (elements_column (built_array rs)) = flat_values rs.
Proof.
  simpl. apply snd_zip. rewrite length_replicate.
  pose proof (flat_values_length rs). lia.
Qed.

Lemma built_element_nulls rs j :
  flag_at (element_nulls (elements_column (built_array rs))) j = false.
Proof.
  simpl. rewrite fst_zip.
  - unfold at_index. destruct (replicate _ false !! j) as [fl|] eqn:Hj; [|done].
    by apply lookup_replicate in Hj as [-> _].
  - rewrite length_replicate. pose proof (flat_values_length rs). lia.
Qed.

Lemma built_element_rows rs :
  element_rows (elements_column (built_array rs)) = Some <$> flat_values rs.
Proof.
  apply list_eq. intros j. rewrite list_lookup_fmap.
  destruct (decide (j < length (flat_values rs))%nat) as [Hj|Hj].
  - rewrite element_view by (by rewrite built_element_data).
    rewrite built_element_nulls, built_element_data. unfold at_index.
    by destruct (lookup_lt_is_Some_2 _ j Hj) as [x ->].
  - rewrite (lookup_ge_None_2 (flat_values rs)) by lia. simpl.
    apply lookup_ge_None_2. simpl. rewrite length_fmap, length_zip, length_replicate. lia.
Qed.

Lemma built_offsets rs i r :
  rs !! i = Some r →
  offsets_column (built_array rs) !! i = Some (count_rows (take i rs)) ∧
  offsets_column (built_array rs) !! (i + 1)%nat
    = Some (count_rows (take i rs) + row_count r).
Proof.
  intros Hi. pose proof (lookup_lt_Some _ _ _ Hi) as Hlt. simpl.
  pose proof (offsets_lookup rs 0 i ltac:(lia)) as H0.
  pose proof (offsets_lookup rs 0 (i + 1) ltac:(lia)) as H1.
  rewrite !Z.add_0_l in *. split; [done|].
  rewrite H1. f_equal. replace (i + 1)%nat with (S i) by lia. by apply count_take_succ.
Qed.

(** The null flag of a row of a column with nulls that is not constant. *)
Lemma null_column_flag (c0 : Column BitmapValue.t) i r :
  has_null c0 = true → only_null c0 = false →
  rows_of c0 !! i = Some r →
  flag_at (Some (null_column c0)) i = bool_decide (r = None).
Proof.
  destruct c0 as [d|cs|v n|n]; try done. simpl. intros _ _.
  rewrite list_lookup_fmap. unfold at_index. rewrite list_lookup_fmap.
  destruct (cs !! i) as [[fl x]|]; [|done]. simpl. intros [= <-].
  unfold cell_row. simpl. by destruct fl.
Qed.

Lemma built_null_flag max c0 out i r :
  bitmap_to_array max c0 = Ok out → count_rows (rows_of c0) < 2 ^ 31 →
  only_null c0 = false →
  rows_of c0 !! i = Some r →
  get_data_column out = built_array (rows_of c0) ∧
  array_only_null out = false ∧
  flag_at (array_null_data out) i = bool_decide (r = None).
Proof.
  intros Hout Hfit Hon Hi. apply bitmap_to_array_built in Hout; [|done].
  rewrite Hon in Hout.
  destruct (has_null c0) eqn:Hhas; simpl in Hout; subst out; simpl.
  - split; [done|]. split; [done|]. by apply null_column_flag.
  - split; [done|]. split; [done|].
    apply view_row in Hi as [_ <-]. unfold view. by rewrite no_null_viewer.
Qed.
End ToArrayLayout.

(** X11. When [bitmap_to_array] returns for a column that is not the constant
    null column and whose total element count fits an [int], the array column
    it builds is well laid out: the two offsets of a row are the element
    counts before and after it, they differ by the cardinality of the row's
    bitmap (by 0 for a null row), they stay within the total element count,
    the elements between them are the members of the bitmap in ascending
    order, each as the [int64_t] it is stored in (the member itself when it
    is below 2^63), with no null element, and the row is flagged null exactly
    when the input row is null. *)
Theorem bitmap_to_array_layout (max : Z) (c0 : Column BitmapValue.t)
    (out : ArrayTypeColumn) (row : nat) (r : option BitmapValue.t) :
  BitmapFunctions.bitmap_to_array max c0 = Ok out →
  total_element_count c0 < 2 ^ 31 →
  only_null c0 = false →
  rows_of c0 !! row = Some r →
  ∃ o0 o1 : Z,
    offsets_column (get_data_column out) !! row = Some o0 ∧
    offsets_column (get_data_column out) !! (row + 1)%nat = Some o1 ∧
    0 ≤ o0 ∧ o1 = o0 + row_count r ∧ o1 ≤ total_element_count c0 ∧
    array_row_elements (get_data_column out) row
      = Some <$> from_option
                   (λ b, (λ m, to_int64 (Z.of_N m)) <$> BitmapValue.members b) [] r ∧
    (∀ b : BitmapValue.t, r = Some b → (∀ x, x ∈ b → Z.of_N x < 2 ^ 63) →
       array_row_elements (get_data_column out) row
       = (λ m, Some (Z.of_N m)) <$> BitmapValue.members b) ∧
    flag_at (array_null_data out) row = bool_decide (r = None) ∧
    Z.of_nat (length (element_data (elements_column (get_data_column out))))
      = total_element_count c0.
Proof.
  intros Hout Hfit Hon Hrow.
  destruct (built_null_flag max c0 out row r Hout Hfit Hon Hrow) as (Hdata & _ & Hflag).
  destruct (built_offsets (rows_of c0) row r Hrow) as [Ho0 Ho1].
  rewrite Hdata.
  assert (Hspan : array_row_elements (built_array (rows_of c0)) row
                  = Some <$> row_values r).
  { unfold array_row_elements.
    rewrite (at_index_lookup _ _ _ Ho0), (at_index_lookup _ _ _ Ho1).
    rewrite built_element_rows, <- fmap_drop, <- fmap_take. f_equal.
    replace (count_rows (take row (rows_of c0)) + row_count r
             - count_rows (take row (rows_of c0))) with (row_count r) by lia.
    by apply flat_segment. }
  exists (count_rows (take row (rows_of c0))),
         (count_rows (take row (rows_of c0)) + row_count r).
  split; [done|]. split; [done|]. split; [apply count_rows_nonneg|]. split; [done|].
  split; [by apply count_take_le|]. split; [done|]. split; [|split; [done|]].
  - intros b -> Hint. rewrite Hspan, row_values_members by done.
    by rewrite <- list_fmap_compose.
  - rewrite built_element_data. apply flat_values_length.
Qed.

Lemma bitmap_to_array_layout_witness :
  let c0 := NullableColumn [(false, ({[ 4%N; 1%N ]} : gset N)); (true, ∅);
                            (false, {[ 7%N; 18446744073709551615%N ]})] in
  let out := NullableArrayCol
               (mkArray (NullableElements [(false, 1); (false, 4); (false, 7); (false, -1)])
                        [0; 2; 2; 4])
               [false; true; false] in
  BitmapFunctions.bitmap_to_array 5 c0 = Ok out ∧
  total_element_count c0 = 4 ∧
  ∃ o0 o1 : Z,
    offsets_column (get_data_column out) !! 2%nat = Some o0 ∧
    offsets_column (get_data_column out) !! 3%nat = Some o1 ∧
    0 ≤ o0 ∧ o1 = o0 + 2 ∧ o1 ≤ 4 ∧
    array_row_elements (get_data_column out) 2 = [Some 7; Some (-1)] ∧
    flag_at (array_null_data out) 2 = false.
Proof.
  intros c0 out. split; [vm_compute; reflexivity|]. split; [vm_compute; reflexivity|].
  destruct (bitmap_to_array_layout 5 c0 out 2
              (Some {[ 7%N; 18446744073709551615%N ]}))
    as (o0 & o1 & H0 & H1 & Hpos & Hnext & Htotal & Hspan & _ & Hflag & _);
    [vm_compute; reflexivity|vm_compute; reflexivity|reflexivity|reflexivity|].
  exists o0, o1. split; [exact H0|]. split; [exact H1|]. split; [exact Hpos|].
  split; [exact Hnext|]. split; [exact Htotal|]. split; [exact Hspan|exact Hflag].
Defined.

Section RoundTrip.
Import BitmapFunctions.

Lemma flat_lookup rs i r j x :
  rs !! i = Some r →
  row_values r !! j = Some x →
  flat_values rs !! (Z.to_nat (count_rows (take i rs)) + j)%nat = Some x.
Proof.
  intros Hi Hx. rewrite <- (flat_segment rs i r Hi) in Hx.
  apply lookup_take_Some in Hx as [Hx _]. by rewrite lookup_drop in Hx.
Qed.

Lemma wrapped_stop p k :
  0 ≤ p → 0 ≤ k → p + k < 2 ^ 32 →
  (p + (p + k - p) mod 2 ^ 32) mod 2 ^ 32 - p = k.
Proof.
  intros Hp Hk Hlt. replace (p + k - p) with k by lia.
  rewrite (Z.mod_small k), (Z.mod_small (p + k)) by lia. lia.
Qed.

(** The bitmap [array_to_bitmap] rebuilds from the span of a row that
    [bitmap_to_array] wrote. *)
Lemma rebuilt_row rs i (b : BitmapValue.t) :
  rs !! i = Some (Some b) →
  (∀ x, x ∈ b → Z.of_N x < 2 ^ 63) →
  fold_left (λ bitmap j,
      if flag_at (element_nulls (elements_column (built_array rs))) j then bitmap
      else if 0 <=? at_index (element_data (elements_column (built_array rs))) j
           then BitmapValue.add bitmap
                  (to_uint64 (at_index (element_data (elements_column (built_array rs))) j))
           else bitmap)
    (seq (Z.to_nat (count_rows (take i rs))) (Z.to_nat (BitmapValue.cardinality b)))
    BitmapValue.empty
  = b.
Proof.
  intros Hi Hint. apply set_eq. intros v. rewrite fill_bitmap_members.
  rewrite built_element_data.
  destruct (members_ascending b) as (_ & _ & Hin).
  pose proof (row_values_length (Some b)) as Hlen.
  pose proof (row_values_members b Hint) as Hvalues.
  rewrite Hvalues, length_fmap in Hlen.
  change (row_count (Some b)) with (BitmapValue.cardinality b) in Hlen. split.
  - intros [Hv|(j & Hj & _ & _ & ->)]; [by apply not_elem_of_empty in Hv|].
    apply elem_of_seq in Hj.
    destruct (lookup_lt_is_Some_2 (BitmapValue.members b)
                (j - Z.to_nat (count_rows (take i rs)))) as [m Hm]; [lia|].
    assert (Hflat : flat_values rs !! j = Some (Z.of_N m)).
    { replace j with (Z.to_nat (count_rows (take i rs))
                      + (j - Z.to_nat (count_rows (take i rs))))%nat at 1 by lia.
      apply (flat_lookup rs i (Some b)); [done|]. rewrite Hvalues.
      by rewrite list_lookup_fmap, Hm. }
    rewrite (at_index_lookup _ _ _ Hflat).
    assert (Hmb : m ∈ b) by (apply Hin; by eapply list_elem_of_lookup_2).
    replace (to_uint64 (Z.of_N m)) with m; [done|].
    apply (inj Z.of_N). rewrite to_uint64_nonneg; [done|].
    specialize (Hint m Hmb). lia.
  - intros Hv. right. apply Hin in Hv. apply list_elem_of_lookup in Hv as [j Hj].
    pose proof (lookup_lt_Some _ _ _ Hj) as Hjlt.
    assert (Hflat : flat_values rs !! (Z.to_nat (count_rows (take i rs)) + j)%nat
                    = Some (Z.of_N v)).
    { apply (flat_lookup rs i (Some b)); [done|]. rewrite Hvalues.
      by rewrite list_lookup_fmap, Hj. }
    exists (Z.to_nat (count_rows (take i rs)) + j)%nat.
    split; [apply elem_of_seq; lia|]. split; [apply built_element_nulls|].
    rewrite (at_index_lookup _ _ _ Hflat). split; [lia|].
    apply (inj Z.of_N). rewrite to_uint64_nonneg; [done|].
    assert (v ∈ b) as Hvb by (apply Hin; by eapply list_elem_of_lookup_2).
    specialize (Hint v Hvb). lia.
Qed.
End RoundTrip.

(** X12. [array_to_bitmap] undoes [bitmap_to_array]: when [bitmap_to_array]
    returns for a column whose members all fit a non-negative [int64_t] and
    whose total element count fits an [int] (it is below 2^31),
    [array_to_bitmap] of the result has exactly the rows of the column, null
    rows and empty bitmaps included. *)
Theorem array_to_bitmap_of_bitmap_to_array (max : Z) (c0 : Column BitmapValue.t)
    (out : ArrayTypeColumn) :
  BitmapFunctions.bitmap_to_array max c0 = Ok out →
  members_int64 c0 →
  total_element_count c0 < 2 ^ 31 →
  rows_of (BitmapFunctions.array_to_bitmap out) = rows_of c0.
Proof.
  intros Hout Hint Htotal. change (count_rows (rows_of c0) < 2 ^ 31) in Htotal.
  destruct (only_null c0) eqn:Hon.
  - destruct c0 as [| | |n]; try done.
    apply bitmap_to_array_built in Hout; [|done]. simpl in Hout. by subst out.
  - pose proof (size_bitmap_to_array max c0 out Hout) as Hsize.
    apply list_eq. intros i. destruct (rows_of c0 !! i) as [r|] eqn:Hi.
    + destruct (built_null_flag max c0 out i r Hout Htotal Hon Hi)
        as (Hdata & Hnn & Hflag).
      assert (Hlt : (i < size out)%nat).
      { rewrite Hsize, <- size_rows_of. by eapply lookup_lt_Some. }
      rewrite array_to_bitmap_rows by done. rewrite lookup_row_seq by done.
      cbv zeta. rewrite Hflag, Hdata. destruct r as [b|]; [|done].
      rewrite bool_decide_eq_false_2 by done. do 2 f_equal.
      destruct (built_offsets (rows_of c0) i (Some b) Hi) as [Ho0 Ho1].
      rewrite (at_index_lookup _ _ _ Ho0), (at_index_lookup _ _ _ Ho1).
      pose proof (count_rows_nonneg (take i (rows_of c0))) as Hp.
      pose proof (count_take_le (rows_of c0) i (Some b) Hi) as Hle.
      pose proof (row_count_nonneg (Some b)) as Hk.
      change (row_count (Some b)) with (BitmapValue.cardinality b) in *.
      rewrite wrapped_stop by lia.
      rewrite int_loop_positions by (intros u Hu%elem_of_seq; lia).
      apply rebuilt_row; [done|]. intros x Hx. by apply (Hint i b).
    + apply lookup_ge_None in Hi. rewrite size_rows_of in Hi.
      apply lookup_ge_None. rewrite size_rows_of.
      assert (size (BitmapFunctions.array_to_bitmap out) = size out) as ->; [|lia].
      unfold BitmapFunctions.array_to_bitmap. case_match; [done|].
      apply size_unary_loop. one_row.
Qed.

Lemma array_to_bitmap_of_bitmap_to_array_witness :
  let c0 := NullableColumn [(false, ({[ 4%N; 1%N ]} : gset N)); (true, ∅);
                            (false, ∅); (false, {[ 7%N ]})] in
  let out := NullableArrayCol
               (mkArray (NullableElements [(false, 1); (false, 4); (false, 7)])
                        [0; 2; 2; 2; 3])
               [false; true; false; false] in
  BitmapFunctions.bitmap_to_array 5 c0 = Ok out ∧
  rows_of (BitmapFunctions.array_to_bitmap out) = rows_of c0.
Proof.
  intros c0 out. split; [vm_compute; reflexivity|].
  apply (array_to_bitmap_of_bitmap_to_array 5 c0 out).
  - vm_compute. reflexivity.
  - intros row b x Hrow Hx.
    destruct row as [|[|[|[|row]]]]; simpl in Hrow; try discriminate;
      injection Hrow as <-; set_unfold; lia.
  - vm_compute. reflexivity.
Defined.

(** ** What sub_bitmap returns *)

Section SubBitmapResult.
Import BitmapFunctions.

(** A range extraction that finds members returns that many members of the
    bitmap, at most [len]. *)
Lemma sub_bitmap_internal_found (b : BitmapValue.t) offset len found ret :
  BitmapValue.sub_bitmap_internal b offset len = (found, ret) →
  found ≠ 0 →
  ret ≠ ∅ ∧ ret ⊆ b ∧ BitmapValue.cardinality ret = found ∧ found ≤ len.
Proof.
  unfold BitmapValue.sub_bitmap_internal.
  destruct (members_ascending b) as (_ & Hnd & Hin).
  set (ms := BitmapValue.members b) in *.
  set (start := if offset <? 0 then Z.of_nat (length ms) + offset else offset).
  destruct ((start <? 0) || (Z.of_nat (length ms) <=? start) || (len <=? 0)) eqn:Hout.
  { intros [= <- <-]. done. }
  apply orb_false_elim in Hout as [_ Hlen%Z.leb_gt].
  set (picked := take (Z.to_nat len) (drop (Z.to_nat start) ms)).
  intros [= <- <-] Hfound.
  assert (Hsub : picked `sublist_of` ms).
  { etrans; [apply sublist_take|apply sublist_drop]. }
  assert (Hsize : size (list_to_set picked : gset N) = length picked).
  { apply size_list_to_set. by eapply sublist_NoDup. }
  split; [|split; [|split]].
  - intros Hempty. rewrite Hempty, size_empty in Hsize. lia.
  - intros x Hx%elem_of_list_to_set. apply Hin. by eapply elem_of_sublist.
  - unfold BitmapValue.cardinality. by rewrite Hsize.
  - unfold picked. rewrite length_take. lia.
Qed.
End SubBitmapResult.

(** X13. A non-null output row of [sub_bitmap] only arises from a non-null
    bitmap, offset and length with a positive length and an offset other than
    [INT_MIN]; it is never the empty bitmap: it holds between 1 and [len]
    members, all of them members of the input bitmap. *)
Theorem sub_bitmap_result (c0 : Column BitmapValue.t) (c1 : Column Z)
    (c2 : option (Column Z)) (row : nat)
    (input : option BitmapValue.t) (offset len : option Z) (r : BitmapValue.t) :
  rows_of c0 !! row = Some input →
  rows_of c1 !! row = Some offset →
  rows_of (sub_bitmap_len_column c0 c2) !! row = Some len →
  rows_of (BitmapFunctions.sub_bitmap c0 c1 c2) !! row = Some (Some r) →
  ∃ (b : BitmapValue.t) (o l : Z),
    input = Some b ∧ offset = Some o ∧ len = Some l ∧
    0 < l ∧ o ≠ INT_MIN ∧
    r ≠ ∅ ∧ r ⊆ b ∧ 0 < BitmapValue.cardinality r ≤ l.
Proof.
  intros H0 H1 H2. rewrite (sub_bitmap_row c0 c1 c2 row input offset len) by done.
  unfold sub_bitmap_cell. destruct input as [b|], offset as [o|], len as [l|]; try done.
  destruct (Z.leb_spec l 0) as [|Hl]; [done|].
  destruct (BitmapValue.cardinality b =? 0); [done|].
  destruct (Z.eqb_spec o INT_MIN) as [|Ho]; [done|]. simpl.
  destruct (BitmapValue.sub_bitmap_internal b o l) as [found ret] eqn:Hsub.
  destruct (Z.eqb_spec found 0) as [|Hfound]; [done|]. intros [= <-].
  destruct (sub_bitmap_internal_found b o l found ret Hsub Hfound)
    as (Hne & Hincl & Hcard & Hle).
  exists b, o, l. repeat split; try done; try lia.
  rewrite Hcard. pose proof (cardinality_nonneg ret). lia.
Qed.

Lemma sub_bitmap_result_witness :
  let c0 := DataColumn [({[ 1%N; 2%N; 3%N; 4%N; 5%N ]} : gset N)] in
  let c1 := DataColumn [-2] in
  let c2 := Some (DataColumn [7]) in
  rows_of (BitmapFunctions.sub_bitmap c0 c1 c2) !! 0%nat = Some (Some {[ 4%N; 5%N ]}) ∧
  ∃ (b : BitmapValue.t) (o l : Z),
    Some ({[ 1%N; 2%N; 3%N; 4%N; 5%N ]} : gset N) = Some b ∧
    Some (-2) = Some o ∧ Some 7 = Some l ∧
    0 < l ∧ o ≠ INT_MIN ∧
    ({[ 4%N; 5%N ]} : gset N) ≠ ∅ ∧ ({[ 4%N; 5%N ]} : gset N) ⊆ b ∧
    0 < BitmapValue.cardinality ({[ 4%N; 5%N ]} : gset N) ≤ l.
Proof.
  intros c0 c1 c2. split; [vm_compute; reflexivity|].
  apply (sub_bitmap_result c0 c1 c2 0 _ _ _ {[ 4%N; 5%N ]});
    [reflexivity|reflexivity|reflexivity|vm_compute; reflexivity].
Defined.

(** X14. Called without the length column and with offset 0, [sub_bitmap]
    returns the whole bitmap of every row whose bitmap has between 1 and
    [INT32_MAX] members. *)
Theorem sub_bitmap_from_start (c0 : Column BitmapValue.t) (c1 : Column Z)
    (row : nat) (b : BitmapValue.t) :
  rows_of c0 !! row = Some (Some b) →
  rows_of c1 !! row = Some (Some 0) →
  0 < BitmapValue.cardinality b ≤ INT32_MAX →
  rows_of (BitmapFunctions.sub_bitmap c0 c1 None) !! row = Some (Some b).
Proof.
  intros H0 H1 Hcard.
  assert (Hlen : rows_of (sub_bitmap_len_column c0 None) !! row = Some (Some INT32_MAX)).
  { simpl. apply lookup_replicate_2. apply lookup_lt_Some in H0.
    by rewrite size_rows_of in H0. }
  rewrite (sub_bitmap_row c0 c1 None row _ _ _ H0 H1 Hlen).
  f_equal. unfold sub_bitmap_cell. simpl.
  destruct (Z.eqb_spec (BitmapValue.cardinality b) 0) as [|_]; [lia|]. simpl.
  unfold BitmapValue.sub_bitmap_internal. simpl.
  pose proof (members_length b) as Hm.
  destruct (Z.leb_spec (Z.of_nat (length (BitmapValue.members b))) 0) as [|_]; [lia|].
  simpl. rewrite drop_0, take_ge by (unfold INT32_MAX in *; lia).
  destruct (Z.eqb_spec (Z.of_nat (length (BitmapValue.members b))) 0) as [|_]; [lia|].
  by rewrite members_set.
Qed.

Lemma sub_bitmap_from_start_witness :
  let c0 := DataColumn [({[ 3%N; 1%N; 2%N ]} : gset N)] in
  let c1 := DataColumn [0] in
  rows_of (BitmapFunctions.sub_bitmap c0 c1 None) !! 0%nat = Some (Some {[ 3%N; 1%N; 2%N ]}).
Proof.
  apply (sub_bitmap_from_start _ _ 0 {[ 3%N; 1%N; 2%N ]});
    [reflexivity|reflexivity|vm_compute; split; [reflexivity|discriminate]].
Defined.

(** X15. A column combined with itself: [bitmap_or] and [bitmap_and] give the
    column's own rows back, [bitmap_xor] and [bitmap_andnot] give the empty
    bitmap on every row that holds a bitmap and a null on every null row. *)
Theorem bitmap_functions_on_same_column (c0 : Column BitmapValue.t) (row : nat)
    (r : option BitmapValue.t) :
  rows_of c0 !! row = Some r →
  rows_of (BitmapFunctions.bitmap_or c0 c0) !! row = Some r ∧
  rows_of (BitmapFunctions.bitmap_and c0 c0) !! row = Some r ∧
  rows_of (BitmapFunctions.bitmap_xor c0 c0) !! row = Some ((λ _, ∅) <$> r) ∧
  rows_of (BitmapFunctions.bitmap_andnot c0 c0) !! row = Some ((λ _, ∅) <$> r).
Proof.
  intros Hrow.
  unfold BitmapFunctions.bitmap_or, BitmapFunctions.bitmap_and,
    BitmapFunctions.bitmap_xor, BitmapFunctions.bitmap_andnot.
  rewrite !(binary_rows_row _ c0 c0 row r r) by done.
  destruct r as [b|]; simpl; [|done]. rewrite !union_with_empty.
  unfold BitmapValue.union_with, BitmapValue.intersect_with,
    BitmapValue.symmetric_difference_with, BitmapValue.difference_with.
  assert (b ∪ b = b) as -> by set_solver.
  assert (b ∩ b = b) as -> by set_solver.
  assert (b ∖ b = ∅) as -> by set_solver.
  assert ((∅ : gset N) ∪ ∅ = ∅) as -> by set_solver. done.
Qed.

Lemma bitmap_functions_on_same_column_witness :
  let c0 := NullableColumn [(false, ({[ 1%N; 2%N ]} : gset N)); (true, ∅)] in
  let r : option BitmapValue.t := Some {[ 1%N; 2%N ]} in
  rows_of (BitmapFunctions.bitmap_or c0 c0) !! 0%nat = Some r ∧
  rows_of (BitmapFunctions.bitmap_and c0 c0) !! 0%nat = Some r ∧
  rows_of (BitmapFunctions.bitmap_xor c0 c0) !! 0%nat = Some ((λ _, ∅) <$> r) ∧
  rows_of (BitmapFunctions.bitmap_andnot c0 c0) !! 0%nat = Some ((λ _, ∅) <$> r).
Proof.
  apply (bitmap_functions_on_same_column _ 0 (Some {[ 1%N; 2%N ]})). reflexivity.
Defined.

(** ** Compositions with to_bitmap, and the buffer of base64_to_bitmap *)

(** X16. [bitmap_count] of [to_bitmap] is 1 on every row whose text the
    parser accepts and 0 on every other row: a rejected text counts 0 like a
    null row, because [bitmap_count] turns the null row into 0. *)
Theorem bitmap_count_of_to_bitmap (parse : string → N * ParseResult)
    (context : FunctionContext) (c0 : Column string) :
  rows_of (BitmapFunctions.bitmap_count (BitmapFunctions.to_bitmap parse context c0).1)
  = (λ r : option string,
       Some (match r with
             | Some text => match (parse text).2 with PARSE_SUCCESS => 1 | _ => 0 end
             | None => 0
             end)) <$> rows_of c0.
Proof.
  rewrite bitmap_count_rows, to_bitmap_rows_of, (rows_of_view c0), <- !list_fmap_compose.
  apply list_fmap_ext. intros i row _. simpl. unfold Rows.to_bitmap_row, view.
  destruct (viewer_is_null c0 row); [done|].
  destruct (parse (viewer_value c0 row)) as [value []]; simpl; try done.
  f_equal. apply singleton_bitmap.
Qed.

Section Base64Value.
Import BitmapFunctions.
Variable decode : string → Z * list Ascii.ascii.
Variable alloc : Z → list Ascii.ascii.
Variable deser : BitmapValue.t → list Ascii.ascii → bool * BitmapValue.t.

Local Abbreviation scratch_step := (base64_scratch_step decode alloc).
Local Abbreviation scratch_after rs := (fold_left scratch_step rs ([], 0)).

(** The loop of [base64_to_bitmap], iteration by iteration: the builder holds
    the rows appended so far, the buffer is what the rows so far left. *)
Lemma base64_to_bitmap_loop c0 body n :
  (∀ (b : ColumnBuilder BitmapValue.t) p last row,
      body (b, p, last) row
      = (append_row b (base64_row decode alloc deser (p, last) (view c0 row)),
         (scratch_step (p, last) (view c0 row)).1,
         (scratch_step (p, last) (view c0 row)).2)) →
  for_rows n body (builder_new, [], 0)
  = (fold_left append_row
       ((λ i, base64_row decode alloc deser (scratch_after (view c0 <$> seq 0 i))
                (view c0 i)) <$> seq 0 n) builder_new,
     (scratch_after (view c0 <$> seq 0 n)).1,
     (scratch_after (view c0 <$> seq 0 n)).2).
Proof.
  intros Hbody. induction n as [|n IH]; [done|].
  unfold for_rows in *. rewrite seq_S, fold_left_app, IH. simpl.
  rewrite Hbody, !fmap_app, !fold_left_app. simpl.
  by destruct (scratch_after (view c0 <$> seq 0 n)).
Qed.

(** Once a text has been decoded into the buffer, decoding the same text
    again leaves the buffer as it is. *)
Lemma scratch_step_again s input :
  scratch_step (scratch_step s input) input = scratch_step s input.
Proof.
  destruct input as [text|]; [|done]. unfold base64_scratch_step.
  destruct (Z.of_nat (String.length text) =? 0) eqn:Hlen; [done|].
  cbv zeta. cbn [fst snd].
  destruct (Z.ltb_spec s.2 (Z.of_nat (String.length text) + 3)).
  - rewrite Z.ltb_irrefl. by rewrite drop_app_length.
  - destruct (Z.ltb_spec s.2 (Z.of_nat (String.length text) + 3)); [lia|].
    by rewrite drop_app_length.
Qed.

Lemma scratch_after_same input k :
  scratch_after (replicate (S k) input) = scratch_step ([], 0) input.
Proof.
  induction k as [|k IH]; [done|].
  rewrite replicate_S_end, fold_left_app, IH. simpl. apply scratch_step_again.
Qed.

(** The row appended after a decoding of the same text is the row appended
    before it. *)
Lemma base64_row_again s input :
  base64_row decode alloc deser (scratch_step s input) input
  = base64_row decode alloc deser s input.
Proof.
  destruct input as [text|]; [|done]. unfold base64_row, base64_scratch_step.
  destruct (Z.of_nat (String.length text) =? 0) eqn:Hlen; [done|].
  destruct ((decode text).1 <? 0); [done|].
  cbv zeta. cbn [fst snd].
  destruct (Z.ltb_spec s.2 (Z.of_nat (String.length text) + 3)).
  - rewrite Z.ltb_irrefl. by rewrite drop_app_length.
  - destruct (Z.ltb_spec s.2 (Z.of_nat (String.length text) + 3)); [lia|].
    by rewrite drop_app_length.
Qed.

Lemma base64_row_const c0 i :
  is_constant c0 = true →
  base64_row decode alloc deser (scratch_after (view c0 <$> seq 0 i)) (view c0 i)
  = base64_row decode alloc deser ([], 0) (view c0 0%nat).
Proof.
  intros Hc. rewrite (view_const c0 i) by done.
  assert (view c0 <$> seq 0 i = replicate i (view c0 0%nat)) as ->.
  { symmetry. apply replicate_as_Forall. rewrite length_fmap, length_seq.
    split; [done|]. apply Forall_forall.
    intros r (x & -> & _)%list_elem_of_fmap. symmetry. by apply view_const. }
  destruct i as [|i]; [done|].
  rewrite scratch_after_same. apply base64_row_again.
Qed.

(** Row by row, [base64_to_bitmap] appends [base64_row] on the buffer the
    rows before left. *)
Lemma base64_to_bitmap_trace c0 row r :
  rows_of c0 !! row = Some r →
  rows_of (base64_to_bitmap decode alloc deser c0) !! row
  = Some (base64_row decode alloc deser (scratch_after (take row (rows_of c0))) r).
Proof.
  intros Hrow. pose proof Hrow as [Hlt Hview]%view_row.
  unfold base64_to_bitmap.
  match goal with
  | |- context [for_rows ?n ?body ?s0] =>
      rewrite (base64_to_bitmap_loop c0 body n)
  end.
  - rewrite rows_of_build.
    + rewrite lookup_row_seq by done. rewrite Hview. do 3 f_equal.
      rewrite (rows_of_view c0), <- fmap_take. f_equal.
      rewrite take_seq. f_equal. lia.
    + intros Hc r1 r2 (x & -> & _)%list_elem_of_fmap (y & -> & _)%list_elem_of_fmap.
      by rewrite !base64_row_const.
  - intros b p last i. unfold view, base64_row, base64_scratch_step.
    destruct (viewer_is_null c0 i); [done|].
    destruct (Z.of_nat (String.length (viewer_value c0 i)) =? 0); [done|].
    cbn [fst snd].
    destruct (last <? Z.of_nat (String.length (viewer_value c0 i)) + 3);
      destruct (decode (viewer_value c0 i)) as [res written]; cbn [fst snd];
      (destruct (res <? 0); [done|]);
      by destruct (deser _ _).
Qed.
End Base64Value.



(** ** Null rows of the binary functions *)

(** X18. For [bitmap_and], [bitmap_xor], [bitmap_andnot], [bitmap_remove] and
    [bitmap_contains], an output row is null exactly when one of the two
    input rows is null: a null never comes from the values, and a present
    pair never gives a null. *)
Theorem binary_functions_null_rows (c0 c1 : Column BitmapValue.t) (cv : Column Z)
    (row : nat) (a b : option BitmapValue.t) (v : option Z) :
  rows_of c0 !! row = Some a →
  rows_of c1 !! row = Some b →
  rows_of cv !! row = Some v →
  (rows_of (BitmapFunctions.bitmap_and c0 c1) !! row = Some None ↔ a = None ∨ b = None) ∧
  (rows_of (BitmapFunctions.bitmap_xor c0 c1) !! row = Some None ↔ a = None ∨ b = None) ∧
  (rows_of (BitmapFunctions.bitmap_andnot c0 c1) !! row = Some None
     ↔ a = None ∨ b = None) ∧
  (rows_of (BitmapFunctions.bitmap_remove c0 cv) !! row = Some None
     ↔ a = None ∨ v = None) ∧
  (rows_of (BitmapFunctions.bitmap_contains c0 cv) !! row = Some None
     ↔ a = None ∨ v = None).
Proof.
  intros H0 H1 Hv.
  unfold BitmapFunctions.bitmap_and, BitmapFunctions.bitmap_xor,
    BitmapFunctions.bitmap_andnot, BitmapFunctions.bitmap_contains.
  rewrite !(binary_rows_row _ c0 c1 row a b) by done.
  rewrite (bitmap_remove_row c0 cv row a v) by done.
  rewrite (strict_function_row _ c0 cv row a v) by done.
  destruct a, b, v; simpl; naive_solver.
Qed.

Lemma binary_functions_null_rows_witness :
  let c0 := NullableColumn [(false, ({[ 1%N; 2%N ]} : gset N)); (true, ∅)] in
  let c1 := DataColumn [({[ 2%N ]} : gset N); {[ 3%N ]}] in
  let cv := DataColumn [2; 3] in
  let a : option BitmapValue.t := None in
  let b : option BitmapValue.t := Some {[ 3%N ]} in
  let v : option Z := Some 3 in
  (rows_of (BitmapFunctions.bitmap_and c0 c1) !! 1%nat = Some None ↔ a = None ∨ b = None) ∧
  (rows_of (BitmapFunctions.bitmap_xor c0 c1) !! 1%nat = Some None ↔ a = None ∨ b = None) ∧
  (rows_of (BitmapFunctions.bitmap_andnot c0 c1) !! 1%nat = Some None
     ↔ a = None ∨ b = None) ∧
  (rows_of (BitmapFunctions.bitmap_remove c0 cv) !! 1%nat = Some None
     ↔ a = None ∨ v = None) ∧
  (rows_of (BitmapFunctions.bitmap_contains c0 cv) !! 1%nat = Some None
     ↔ a = None ∨ v = None).
Proof.
  apply (binary_functions_null_rows _ _ _ 1 None (Some {[ 3%N ]}) (Some 3)); reflexivity.
Defined.
